(** * Integrator steps of PySPH ([pysph/sph/integrator_step.py])

    Shallow embedding of the per-particle integrator steps.  A particle
    group is a store mapping a property name to its array (a [list Q]);
    every method of an [IntegratorStep] subclass is a program in a small
    state/error monad over that store that reads and writes
    [d_X[d_idx]] exactly as the Python source does.  An index out of
    range or a missing array is an error ([None]), as numpy and the
    code generator would raise.  Floating point is replaced by exact
    rational arithmetic: [0.5] is [1#2], [0.75] is [3#4], [1./3.] is
    [1#3] and so on. *)

From Stdlib Require Import String List Arith QArith Lia Lqa Bool.
From Stdlib Require PrimFloat.
Import ListNotations.
Open Scope string_scope.

(** ** Property arrays and the particle store *)

(** [a[i] = v] on a fixed-size array; out of range it leaves the list
    alone (the writer [wr] below checks the bound first, like numpy). *)
Fixpoint list_set (a : list Q) (i : nat) (v : Q) : list Q :=
  match a, i with
  | [], _ => []
  | _ :: t, O => v :: t
  | x :: t, S j => x :: list_set t j v
  end.

Definition store := string -> option (list Q).

Definition upd (s : store) (n : string) (a : list Q) : store :=
  fun m => if String.eqb m n then Some a else s m.

(** [d_n[i]] read from the store. *)
Definition read (s : store) (n : string) (i : nat) : option Q :=
  match s n with
  | Some a => nth_error a i
  | None => None
  end.

(** ** The state/error monad of a method call *)

Definition M (A : Type) := store -> option (A * store).

Definition ret {A} (x : A) : M A := fun s => Some (x, s).

Definition bind {A B} (m : M A) (k : A -> M B) : M B :=
  fun s => match m s with
           | Some (x, s') => k x s'
           | None => None
           end.

Definition fail {A} : M A := fun _ => None.

Declare Scope monad_scope.
Notation "x <- m ;; k" := (bind m (fun x => k))
  (at level 61, m at next level, right associativity) : monad_scope.
Notation "m ;; k" := (bind m (fun _ => k))
  (at level 61, right associativity) : monad_scope.
Open Scope monad_scope.

(** [d_n[d_idx]] as an expression. *)
Definition rd (n : string) (d_idx : nat) : M Q :=
  fun s => match read s n d_idx with
           | Some v => Some (v, s)
           | None => None
           end.

(** [d_n[d_idx] = v]. *)
Definition wr (n : string) (d_idx : nat) (v : Q) : M unit :=
  fun s => match s n with
           | Some a => if Nat.ltb d_idx (length a)
                       then Some (tt, upd s n (list_set a d_idx v))
                       else None
           | None => None
           end.

(** [d_n[d_idx] += e]. *)
Definition incr (n : string) (d_idx : nat) (e : Q) : M unit :=
  x <- rd n d_idx ;; wr n d_idx (x + e).

Open Scope Q_scope.

(** ** The integrator steps, one module per class *)

(** [class IntegratorStep]: the three methods are [pass]. *)
Module IntegratorStep.
Definition initialize (d_idx : nat) : M unit := ret tt.
Definition stage1 (d_idx : nat) (dt : Q) : M unit := ret tt.
Definition stage2 (d_idx : nat) (dt : Q) : M unit := ret tt.
End IntegratorStep.

Module EulerStep.
Definition initialize (d_idx : nat) : M unit := ret tt.
Definition stage1 (d_idx : nat) (dt : Q) : M unit :=
  au <- rd "au" d_idx ;; incr "u" d_idx (dt * au) ;;
  av <- rd "av" d_idx ;; incr "v" d_idx (dt * av) ;;
  aw <- rd "aw" d_idx ;; incr "w" d_idx (dt * aw) ;;
  u <- rd "u" d_idx ;; incr "x" d_idx (dt * u) ;;
  v <- rd "v" d_idx ;; incr "y" d_idx (dt * v) ;;
  w <- rd "w" d_idx ;; incr "z" d_idx (dt * w) ;;
  arho <- rd "arho" d_idx ;; incr "rho" d_idx (dt * arho).
End EulerStep.

(** [d_q[d_idx] = d_q0[d_idx] + c * d_a[d_idx]], the update shared by the
    predictor-corrector schemes. *)
Definition from_pred (q q0 a : string) (d_idx : nat) (c : Q) : M unit :=
  q0v <- rd q0 d_idx ;; av <- rd a d_idx ;; wr q d_idx (q0v + c * av).

(** [d_q0[d_idx] = d_q[d_idx]]. *)
Definition copy (q0 q : string) (d_idx : nat) : M unit :=
  v <- rd q d_idx ;; wr q0 d_idx v.

Module WCSPHStep.
Definition initialize (d_idx : nat) : M unit :=
  copy "x0" "x" d_idx ;; copy "y0" "y" d_idx ;; copy "z0" "z" d_idx ;;
  copy "u0" "u" d_idx ;; copy "v0" "v" d_idx ;; copy "w0" "w" d_idx ;;
  copy "rho0" "rho" d_idx.
Definition stage1 (d_idx : nat) (dt : Q) : M unit :=
  let dtb2 := (1#2) * dt in
  from_pred "u" "u0" "au" d_idx dtb2 ;;
  from_pred "v" "v0" "av" d_idx dtb2 ;;
  from_pred "w" "w0" "aw" d_idx dtb2 ;;
  from_pred "x" "x0" "ax" d_idx dtb2 ;;
  from_pred "y" "y0" "ay" d_idx dtb2 ;;
  from_pred "z" "z0" "az" d_idx dtb2 ;;
  from_pred "rho" "rho0" "arho" d_idx dtb2.
Definition stage2 (d_idx : nat) (dt : Q) : M unit :=
  from_pred "u" "u0" "au" d_idx dt ;;
  from_pred "v" "v0" "av" d_idx dt ;;
  from_pred "w" "w0" "aw" d_idx dt ;;
  from_pred "x" "x0" "ax" d_idx dt ;;
  from_pred "y" "y0" "ay" d_idx dt ;;
  from_pred "z" "z0" "az" d_idx dt ;;
  from_pred "rho" "rho0" "arho" d_idx dt.
End WCSPHStep.

(** [d_q[d_idx] = c0*d_q0[d_idx] + c1*(d_q[d_idx] + dt*d_a[d_idx])], the
    blend of the TVD Runge-Kutta stages. *)
Definition blend (q q0 a : string) (d_idx : nat) (c0 c1 dt : Q) : M unit :=
  q0v <- rd q0 d_idx ;; qv <- rd q d_idx ;; av <- rd a d_idx ;;
  wr q d_idx (c0 * q0v + c1 * (qv + dt * av)).

Module WCSPHTVDRK3Step.
Definition initialize (d_idx : nat) : M unit :=
  copy "x0" "x" d_idx ;; copy "y0" "y" d_idx ;; copy "z0" "z" d_idx ;;
  copy "u0" "u" d_idx ;; copy "v0" "v" d_idx ;; copy "w0" "w" d_idx ;;
  copy "rho0" "rho" d_idx.
Definition stage1 (d_idx : nat) (dt : Q) : M unit :=
  from_pred "u" "u0" "au" d_idx dt ;;
  from_pred "v" "v0" "av" d_idx dt ;;
  from_pred "w" "w0" "aw" d_idx dt ;;
  from_pred "x" "x0" "ax" d_idx dt ;;
  from_pred "y" "y0" "ay" d_idx dt ;;
  from_pred "z" "z0" "az" d_idx dt ;;
  from_pred "rho" "rho0" "arho" d_idx dt.
Definition stage2 (d_idx : nat) (dt : Q) : M unit :=
  blend "u" "u0" "au" d_idx (3#4) (1#4) dt ;;
  blend "v" "v0" "av" d_idx (3#4) (1#4) dt ;;
  blend "w" "w0" "aw" d_idx (3#4) (1#4) dt ;;
  blend "x" "x0" "ax" d_idx (3#4) (1#4) dt ;;
  blend "y" "y0" "ay" d_idx (3#4) (1#4) dt ;;
  blend "z" "z0" "az" d_idx (3#4) (1#4) dt ;;
  blend "rho" "rho0" "arho" d_idx (3#4) (1#4) dt.
Definition stage3 (d_idx : nat) (dt : Q) : M unit :=
  let oneby3 := 1#3 in
  let twoby3 := 2#3 in
  blend "u" "u0" "au" d_idx oneby3 twoby3 dt ;;
  blend "v" "v0" "av" d_idx oneby3 twoby3 dt ;;
  blend "w" "w0" "aw" d_idx oneby3 twoby3 dt ;;
  blend "x" "x0" "ax" d_idx oneby3 twoby3 dt ;;
  blend "y" "y0" "ay" d_idx oneby3 twoby3 dt ;;
  blend "z" "z0" "az" d_idx oneby3 twoby3 dt ;;
  blend "rho" "rho0" "arho" d_idx oneby3 twoby3 dt.
End WCSPHTVDRK3Step.

Module SolidMechStep.
Definition initialize (d_idx : nat) : M unit :=
  copy "x0" "x" d_idx ;; copy "y0" "y" d_idx ;; copy "z0" "z" d_idx ;;
  copy "u0" "u" d_idx ;; copy "v0" "v" d_idx ;; copy "w0" "w" d_idx ;;
  copy "rho0" "rho" d_idx ;; copy "e0" "e" d_idx ;;
  copy "s000" "s00" d_idx ;; copy "s010" "s01" d_idx ;;
  copy "s020" "s02" d_idx ;; copy "s110" "s11" d_idx ;;
  copy "s120" "s12" d_idx ;; copy "s220" "s22" d_idx.
Definition stage1 (d_idx : nat) (dt : Q) : M unit :=
  let dtb2 := (1#2) * dt in
  from_pred "u" "u0" "au" d_idx dtb2 ;;
  from_pred "v" "v0" "av" d_idx dtb2 ;;
  from_pred "w" "w0" "aw" d_idx dtb2 ;;
  from_pred "x" "x0" "ax" d_idx dtb2 ;;
  from_pred "y" "y0" "ay" d_idx dtb2 ;;
  from_pred "z" "z0" "az" d_idx dtb2 ;;
  from_pred "rho" "rho0" "arho" d_idx dtb2 ;;
  from_pred "e" "e0" "ae" d_idx dtb2 ;;
  from_pred "s00" "s000" "as00" d_idx dtb2 ;;
  from_pred "s01" "s010" "as01" d_idx dtb2 ;;
  from_pred "s02" "s020" "as02" d_idx dtb2 ;;
  from_pred "s11" "s110" "as11" d_idx dtb2 ;;
  from_pred "s12" "s120" "as12" d_idx dtb2 ;;
  from_pred "s22" "s220" "as22" d_idx dtb2.
Definition stage2 (d_idx : nat) (dt : Q) : M unit :=
  from_pred "u" "u0" "au" d_idx dt ;;
  from_pred "v" "v0" "av" d_idx dt ;;
  from_pred "w" "w0" "aw" d_idx dt ;;
  from_pred "x" "x0" "ax" d_idx dt ;;
  from_pred "y" "y0" "ay" d_idx dt ;;
  from_pred "z" "z0" "az" d_idx dt ;;
  from_pred "rho" "rho0" "arho" d_idx dt ;;
  from_pred "e" "e0" "ae" d_idx dt ;;
  from_pred "s00" "s000" "as00" d_idx dt ;;
  from_pred "s01" "s010" "as01" d_idx dt ;;
  from_pred "s02" "s020" "as02" d_idx dt ;;
  from_pred "s11" "s110" "as11" d_idx dt ;;
  from_pred "s12" "s120" "as12" d_idx dt ;;
  from_pred "s22" "s220" "as22" d_idx dt.
End SolidMechStep.

Module TransportVelocityStep.
Definition initialize (d_idx : nat) : M unit := ret tt.
Definition stage1 (d_idx : nat) (dt : Q) : M unit :=
  let dtb2 := (1#2) * dt in
  (* velocity update eqn (14) *)
  au <- rd "au" d_idx ;; incr "u" d_idx (dtb2 * au) ;;
  av <- rd "av" d_idx ;; incr "v" d_idx (dtb2 * av) ;;
  (* advection velocity update eqn (15) *)
  u <- rd "u" d_idx ;; auhat <- rd "auhat" d_idx ;;
  wr "uhat" d_idx (u + dtb2 * auhat) ;;
  v <- rd "v" d_idx ;; avhat <- rd "avhat" d_idx ;;
  wr "vhat" d_idx (v + dtb2 * avhat) ;;
  (* position update eqn (16) *)
  uhat <- rd "uhat" d_idx ;; incr "x" d_idx (dt * uhat) ;;
  vhat <- rd "vhat" d_idx ;; incr "y" d_idx (dt * vhat).
Definition stage2 (d_idx : nat) (dt : Q) : M unit :=
  let dtb2 := (1#2) * dt in
  (* corrector update eqn (17) *)
  au <- rd "au" d_idx ;; incr "u" d_idx (dtb2 * au) ;;
  av <- rd "av" d_idx ;; incr "v" d_idx (dtb2 * av) ;;
  (* magnitude of velocity squared *)
  u <- rd "u" d_idx ;; v <- rd "v" d_idx ;;
  wr "vmag2" d_idx (u * u + v * v).
End TransportVelocityStep.

Module AdamiVerletStep.
Definition initialize (d_idx : nat) : M unit := ret tt.
Definition stage1 (d_idx : nat) (dt : Q) : M unit :=
  let dtb2 := (1#2) * dt in
  (* velocity predictor eqn (14) *)
  au <- rd "au" d_idx ;; incr "u" d_idx (dtb2 * au) ;;
  av <- rd "av" d_idx ;; incr "v" d_idx (dtb2 * av) ;;
  (* position predictor eqn (15) *)
  u <- rd "u" d_idx ;; incr "x" d_idx (dtb2 * u) ;;
  v <- rd "v" d_idx ;; incr "y" d_idx (dtb2 * v).
Definition stage2 (d_idx : nat) (dt : Q) : M unit :=
  let dtb2 := (1#2) * dt in
  (* velocity corrector eqn (18) *)
  au <- rd "au" d_idx ;; incr "u" d_idx (dtb2 * au) ;;
  av <- rd "av" d_idx ;; incr "v" d_idx (dtb2 * av) ;;
  (* position corrector eqn (17) *)
  u <- rd "u" d_idx ;; incr "x" d_idx (dtb2 * u) ;;
  v <- rd "v" d_idx ;; incr "y" d_idx (dtb2 * v) ;;
  (* density corrector eqn (16) *)
  arho <- rd "arho" d_idx ;; incr "rho" d_idx (dt * arho) ;;
  (* magnitude of velocity squared *)
  u' <- rd "u" d_idx ;; v' <- rd "v" d_idx ;;
  wr "vmag2" d_idx (u' * u' + v' * v').
End AdamiVerletStep.

(** [d_q[d_idx] = d_q0[d_idx] + c * d_r[d_idx]] where [r] is a current
    (already updated) property, as in the gas-dynamics position update. *)
Definition from_pred_cur (q q0 r : string) (d_idx : nat) (c : Q) : M unit :=
  q0v <- rd q0 d_idx ;; rv <- rd r d_idx ;; wr q d_idx (q0v + c * rv).

Module GasDFluidStep.
Definition initialize (d_idx : nat) : M unit :=
  copy "x0" "x" d_idx ;; copy "y0" "y" d_idx ;; copy "z0" "z" d_idx ;;
  copy "u0" "u" d_idx ;; copy "v0" "v" d_idx ;; copy "w0" "w" d_idx ;;
  copy "e0" "e" d_idx ;;
  copy "h0" "h" d_idx ;;
  (* set the converged attribute to 0 at the beginning of a Group *)
  wr "converged" d_idx 0 ;;
  (* likewise, the default omega (grad-h) terms are set to 1 *)
  wr "omega" d_idx 1.
Definition stage1 (d_idx : nat) (dt : Q) : M unit :=
  let dtb2 := (1#2) * dt in
  from_pred "u" "u0" "au" d_idx dtb2 ;;
  from_pred "v" "v0" "av" d_idx dtb2 ;;
  from_pred "w" "w0" "aw" d_idx dtb2 ;;
  from_pred_cur "x" "x0" "u" d_idx dtb2 ;;
  from_pred_cur "y" "y0" "v" d_idx dtb2 ;;
  from_pred_cur "z" "z0" "w" d_idx dtb2 ;;
  (* update thermal energy *)
  from_pred "e" "e0" "ae" d_idx dtb2.
Definition stage2 (d_idx : nat) (dt : Q) : M unit :=
  from_pred "u" "u0" "au" d_idx dt ;;
  from_pred "v" "v0" "av" d_idx dt ;;
  from_pred "w" "w0" "aw" d_idx dt ;;
  from_pred_cur "x" "x0" "u" d_idx dt ;;
  from_pred_cur "y" "y0" "v" d_idx dt ;;
  from_pred_cur "z" "z0" "w" d_idx dt ;;
  from_pred "e" "e0" "ae" d_idx dt.
End GasDFluidStep.

(** [d_q[d_idx] = d_q0[d_idx] + c * 0.5 * (d_r[d_idx] + d_r0[d_idx])]: the
    position update with the time centered velocity. *)
Definition centered (q q0 r r0 : string) (d_idx : nat) (c : Q) : M unit :=
  q0v <- rd q0 d_idx ;; rv <- rd r d_idx ;; r0v <- rd r0 d_idx ;;
  wr q d_idx (q0v + c * (1#2) * (rv + r0v)).

Module TwoStageRigidBodyStep.
Definition initialize (d_idx : nat) : M unit :=
  copy "u0" "u" d_idx ;; copy "v0" "v" d_idx ;; copy "w0" "w" d_idx ;;
  copy "x0" "x" d_idx ;; copy "y0" "y" d_idx ;; copy "z0" "z" d_idx.
Definition stage1 (d_idx : nat) (dt : Q) : M unit :=
  let dtb2 := (1#2) * dt in
  from_pred "u" "u0" "ax" d_idx dtb2 ;;
  from_pred "v" "v0" "ay" d_idx dtb2 ;;
  from_pred "w" "w0" "az" d_idx dtb2 ;;
  (* positions are updated based on the time centered velocity *)
  centered "x" "x0" "u" "u0" d_idx dtb2 ;;
  centered "y" "y0" "v" "v0" d_idx dtb2 ;;
  centered "z" "z0" "w" "w0" d_idx dtb2.
Definition stage2 (d_idx : nat) (dt : Q) : M unit :=
  from_pred "u" "u0" "ax" d_idx dt ;;
  from_pred "v" "v0" "ay" d_idx dt ;;
  from_pred "w" "w0" "az" d_idx dt ;;
  centered "x" "x0" "u" "u0" d_idx dt ;;
  centered "y" "y0" "v" "v0" d_idx dt ;;
  centered "z" "z0" "w" "w0" d_idx dt.
End TwoStageRigidBodyStep.

(** [d_q[d_idx] += c * 0.5 * (d_r[d_idx] + d_r0[d_idx])]. *)
Definition centered_incr (q r r0 : string) (d_idx : nat) (c : Q) : M unit :=
  rv <- rd r d_idx ;; r0v <- rd r0 d_idx ;;
  incr q d_idx (c * (1#2) * (rv + r0v)).

Module OneStageRigidBodyStep.
Definition initialize (d_idx : nat) : M unit :=
  copy "u0" "u" d_idx ;; copy "v0" "v" d_idx ;; copy "w0" "w" d_idx ;;
  copy "x0" "x" d_idx ;; copy "y0" "y" d_idx ;; copy "z0" "z" d_idx.
Definition stage1 (d_idx : nat) (dt : Q) : M unit := ret tt.
Definition stage2 (d_idx : nat) (dt : Q) : M unit :=
  (* update velocities *)
  ax <- rd "ax" d_idx ;; incr "u" d_idx (dt * ax) ;;
  ay <- rd "ay" d_idx ;; incr "v" d_idx (dt * ay) ;;
  az <- rd "az" d_idx ;; incr "w" d_idx (dt * az) ;;
  (* update positions using time-centered velocity *)
  centered_incr "x" "u" "u0" d_idx dt ;;
  centered_incr "y" "v" "v0" d_idx dt ;;
  centered_incr "z" "w" "w0" d_idx dt.
End OneStageRigidBodyStep.

Module VerletSymplecticWCSPHStep.
(** No [initialize]: the one of [IntegratorStep] ([pass]) is inherited. *)
Definition initialize (d_idx : nat) : M unit := IntegratorStep.initialize d_idx.
Definition stage1 (d_idx : nat) (dt : Q) : M unit :=
  let dtb2 := (1#2) * dt in
  (* Eq. (5.39) in [JM05] *)
  u <- rd "u" d_idx ;; incr "x" d_idx (dtb2 * u) ;;
  v <- rd "v" d_idx ;; incr "y" d_idx (dtb2 * v) ;;
  w <- rd "w" d_idx ;; incr "z" d_idx (dtb2 * w).
Definition stage2 (d_idx : nat) (dt : Q) : M unit :=
  let dtb2 := (1#2) * dt in
  (* Eq. (5.40) in [JM05] *)
  au <- rd "au" d_idx ;; incr "u" d_idx (dt * au) ;;
  av <- rd "av" d_idx ;; incr "v" d_idx (dt * av) ;;
  aw <- rd "aw" d_idx ;; incr "w" d_idx (dt * aw) ;;
  (* Eq. (5.41) in [JM05] using XSPH velocity correction *)
  ax <- rd "ax" d_idx ;; incr "x" d_idx (dtb2 * ax) ;;
  ay <- rd "ay" d_idx ;; incr "y" d_idx (dtb2 * ay) ;;
  az <- rd "az" d_idx ;; incr "z" d_idx (dtb2 * az).
End VerletSymplecticWCSPHStep.

(** ** The schemes and the calling protocol of the stepping driver *)

Inductive step_kind :=
| Euler | WCSPH | WCSPHTVDRK3 | SolidMech | TransportVelocity
| AdamiVerlet | GasDFluid | TwoStageRigidBody | OneStageRigidBody
| VerletSymplecticWCSPH.

Open Scope nat_scope.

(** [method k 0] is [initialize], [method k j] is [stagej]; a method the
    class does not define is looked up in [IntegratorStep] (whose
    methods are [pass]), and a missing one is an error. *)
Definition method (k : step_kind) (st : nat) (d_idx : nat) (dt : Q) : M unit :=
  match k, st with
  | Euler, 0 => EulerStep.initialize d_idx
  | Euler, 1 => EulerStep.stage1 d_idx dt
  | Euler, 2 => IntegratorStep.stage2 d_idx dt
  | WCSPH, 0 => WCSPHStep.initialize d_idx
  | WCSPH, 1 => WCSPHStep.stage1 d_idx dt
  | WCSPH, 2 => WCSPHStep.stage2 d_idx dt
  | WCSPHTVDRK3, 0 => WCSPHTVDRK3Step.initialize d_idx
  | WCSPHTVDRK3, 1 => WCSPHTVDRK3Step.stage1 d_idx dt
  | WCSPHTVDRK3, 2 => WCSPHTVDRK3Step.stage2 d_idx dt
  | WCSPHTVDRK3, 3 => WCSPHTVDRK3Step.stage3 d_idx dt
  | SolidMech, 0 => SolidMechStep.initialize d_idx
  | SolidMech, 1 => SolidMechStep.stage1 d_idx dt
  | SolidMech, 2 => SolidMechStep.stage2 d_idx dt
  | TransportVelocity, 0 => TransportVelocityStep.initialize d_idx
  | TransportVelocity, 1 => TransportVelocityStep.stage1 d_idx dt
  | TransportVelocity, 2 => TransportVelocityStep.stage2 d_idx dt
  | AdamiVerlet, 0 => AdamiVerletStep.initialize d_idx
  | AdamiVerlet, 1 => AdamiVerletStep.stage1 d_idx dt
  | AdamiVerlet, 2 => AdamiVerletStep.stage2 d_idx dt
  | GasDFluid, 0 => GasDFluidStep.initialize d_idx
  | GasDFluid, 1 => GasDFluidStep.stage1 d_idx dt
  | GasDFluid, 2 => GasDFluidStep.stage2 d_idx dt
  | TwoStageRigidBody, 0 => TwoStageRigidBodyStep.initialize d_idx
  | TwoStageRigidBody, 1 => TwoStageRigidBodyStep.stage1 d_idx dt
  | TwoStageRigidBody, 2 => TwoStageRigidBodyStep.stage2 d_idx dt
  | OneStageRigidBody, 0 => OneStageRigidBodyStep.initialize d_idx
  | OneStageRigidBody, 1 => OneStageRigidBodyStep.stage1 d_idx dt
  | OneStageRigidBody, 2 => OneStageRigidBodyStep.stage2 d_idx dt
  | VerletSymplecticWCSPH, 0 => VerletSymplecticWCSPHStep.initialize d_idx
  | VerletSymplecticWCSPH, 1 => VerletSymplecticWCSPHStep.stage1 d_idx dt
  | VerletSymplecticWCSPH, 2 => VerletSymplecticWCSPHStep.stage2 d_idx dt
  | _, _ => fail
  end.

(** Number of stages each scheme defines. *)
Definition num_stages (k : step_kind) : nat :=
  match k with
  | Euler => 1
  | WCSPHTVDRK3 => 3
  | _ => 2
  end.

(** A sequence of method calls [(st, dt)] on particle [d_idx]. *)
Fixpoint calls (k : step_kind) (d_idx : nat) (cs : list (nat * Q)) : M unit :=
  match cs with
  | [] => ret tt
  | (st, dt) :: t => method k st d_idx dt ;; calls k d_idx t
  end.

(** One timestep: [initialize], then [stage1 .. stageN] with the same [dt]
    and no re-evaluation of the accelerations in between. *)
Definition timestep (k : step_kind) (d_idx : nat) (dt : Q) : M unit :=
  calls k d_idx ((0%nat, dt) :: map (fun j => (j, dt)) (seq 1%nat (num_stages k))).

Open Scope Q_scope.

(** Equality of two optional values as rationals. *)
Definition qeq_opt (a b : option Q) : Prop :=
  match a, b with
  | Some x, Some y => x == y
  | None, None => True
  | _, _ => False
  end.

(** ** Weakest preconditions of method programs (partial correctness) *)

Definition wp {A} (m : M A) (P : A -> store -> Prop) (s : store) : Prop :=
  match m s with
  | Some (x, s') => P x s'
  | None => True
  end.

Section WP.
Context {A B : Type}.

Lemma wp_run (m : M A) P s x s' : wp m P s -> m s = Some (x, s') -> P x s'.
Proof. unfold wp. intros H E. rewrite E in H. exact H. Qed.

Lemma wp_bind (m : M A) (k : A -> M B) P s :
  wp m (fun x s1 => wp (k x) P s1) s -> wp (bind m k) P s.
Proof. unfold wp, bind. destruct (m s) as [[x s1]|]; auto. Qed.

Lemma wp_ret (x : A) P s : P x s -> wp (ret x) P s.
Proof. exact (fun H => H). Qed.

Lemma wp_fail P s : wp (@fail A) P s.
Proof. exact I. Qed.

End WP.

Lemma wp_rd n i P s :
  (forall v, read s n i = Some v -> P v s) -> wp (rd n i) P s.
Proof. unfold wp, rd. destruct (read s n i); auto. Qed.

Lemma wp_wr n i v P s :
  (forall a, s n = Some a -> (i < length a)%nat -> P tt (upd s n (list_set a i v))) ->
  wp (wr n i v) P s.
Proof.
  unfold wp, wr. intros H. destruct (s n) as [a|]; auto.
  destruct (Nat.ltb_spec i (length a)); auto.
Qed.

(** ** Lemmas on arrays and the store *)

Lemma length_list_set a i v : length (list_set a i v) = length a.
Proof. revert i; induction a; destruct i; simpl; auto. Qed.

Lemma nth_error_list_set a i v j :
  nth_error (list_set a i v) j =
  if Nat.eqb j i then (if Nat.ltb i (length a) then Some v else None)
  else nth_error a j.
Proof.
  revert i j; induction a as [|x a IH]; intros [|i] [|j]; simpl; auto.
  destruct (Nat.eqb j i); auto.
Qed.

Lemma nth_error_list_set_eq a i v :
  (i < length a)%nat -> nth_error (list_set a i v) i = Some v.
Proof.
  intros H. rewrite nth_error_list_set, Nat.eqb_refl.
  destruct (Nat.ltb_spec i (length a)); [reflexivity | lia].
Qed.

Lemma read_upd s m a n i :
  read (upd s m a) n i = if String.eqb n m then nth_error a i else read s n i.
Proof. unfold read, upd. destruct (String.eqb n m); reflexivity. Qed.

Lemma upd_apply s m a n :
  upd s m a n = if String.eqb n m then Some a else s n.
Proof. reflexivity. Qed.

(** Symbolic execution of a method program: unfold it, walk through its
    binds, and simplify what is learnt about the store on the way. *)
Ltac wp_prog :=
  repeat (cbv beta zeta;
    match goal with
    | |- wp (bind _ _) _ _ => apply wp_bind
    | |- wp (ret _) _ _ => apply wp_ret
    | |- wp fail _ _ => apply wp_fail
    | |- wp (rd _ _) _ _ => apply wp_rd; intros ? ?
    | |- wp (wr _ _ _) _ _ => apply wp_wr; intros ? ? ?
    end);
  cbv beta.

Ltac simp_store :=
  repeat (first
    [ progress cbn [String.eqb Ascii.eqb Bool.eqb] in *
    | rewrite read_upd in *
    | rewrite upd_apply in *
    | rewrite length_list_set in *
    | match goal with
      | H : context [nth_error (list_set ?a ?i ?v) ?i] |- _ =>
          rewrite (nth_error_list_set_eq a i v) in H
            by (rewrite ?length_list_set; assumption)
      | |- context [nth_error (list_set ?a ?i ?v) ?i] =>
          rewrite (nth_error_list_set_eq a i v)
            by (rewrite ?length_list_set; assumption)
      | H : Some _ = Some _ |- _ => injection H as H; subst
      | H : read ?s ?n ?i = Some _ |- context [read ?s ?n ?i] => rewrite H
      | H1 : ?r = Some ?x, H2 : ?r = Some ?y |- _ =>
          lazymatch x with
          | y => fail
          | _ => rewrite H1 in H2
          end
      end ]).

(** Turn [E : m s = Some (x, s')] and a goal about [s'] into a weakest
    precondition goal for [m] at [s]. *)
Ltac start_wp E :=
  match type of E with
  | ?m ?s = Some (?x, ?s') =>
      pattern s';
      match goal with
      | |- ?P s' => refine (wp_run m (fun _ => P) s x s' _ E)
      end
  end.

Ltac unfold_methods :=
  unfold timestep, calls, method, num_stages, seq, map,
    EulerStep.initialize, EulerStep.stage1,
    WCSPHStep.initialize, WCSPHStep.stage1, WCSPHStep.stage2,
    WCSPHTVDRK3Step.initialize, WCSPHTVDRK3Step.stage1,
    WCSPHTVDRK3Step.stage2, WCSPHTVDRK3Step.stage3,
    SolidMechStep.initialize, SolidMechStep.stage1, SolidMechStep.stage2,
    TransportVelocityStep.initialize, TransportVelocityStep.stage1,
    TransportVelocityStep.stage2,
    AdamiVerletStep.initialize, AdamiVerletStep.stage1, AdamiVerletStep.stage2,
    GasDFluidStep.initialize, GasDFluidStep.stage1, GasDFluidStep.stage2,
    TwoStageRigidBodyStep.initialize, TwoStageRigidBodyStep.stage1,
    TwoStageRigidBodyStep.stage2,
    OneStageRigidBodyStep.initialize, OneStageRigidBodyStep.stage1,
    OneStageRigidBodyStep.stage2,
    VerletSymplecticWCSPHStep.initialize, VerletSymplecticWCSPHStep.stage1,
    VerletSymplecticWCSPHStep.stage2,
    IntegratorStep.initialize, IntegratorStep.stage1, IntegratorStep.stage2,
    centered_incr, centered, blend, from_pred_cur, from_pred, copy, incr.

(** ** Frames and relational properties of method programs

    A position is a property name and an index.  [agree D s1 s2]: the two
    stores have the same arrays (by name) with the same lengths, and the
    same element at every position [D] does not mark. *)

Definition agree (D : string -> nat -> bool) (s1 s2 : store) : Prop :=
  forall n,
    match s1 n, s2 n with
    | Some a1, Some a2 =>
        length a1 = length a2 /\
        forall j, D n j = false -> nth_error a1 j = nth_error a2 j
    | None, None => True
    | _, _ => False
    end.

(** [frame W m]: [m] changes nothing outside the positions [W] marks. *)
Definition frame {A} (W : string -> nat -> bool) (m : M A) : Prop :=
  forall s x s', m s = Some (x, s') -> agree W s s'.

(** [rel D D' m]: run on two stores that agree outside [D], [m] fails on
    both or on neither, returns the same value, and leaves stores that
    agree outside [D'].  With [D = D'] this says that [m] reads no
    position outside [D]. *)
Definition rel {A} (D D' : string -> nat -> bool) (m : M A) : Prop :=
  forall s1 s2, agree D s1 s2 ->
    match m s1, m s2 with
    | Some (x1, t1), Some (x2, t2) => x1 = x2 /\ agree D' t1 t2
    | None, None => True
    | _, _ => False
    end.

(** Forget position [(n, i)]: after both runs wrote the same value there. *)
Definition clear (D : string -> nat -> bool) (n : string) (i : nat) :=
  fun m j => D m j && negb (String.eqb m n && Nat.eqb j i).

Lemma agree_refl D s : agree D s s.
Proof. intros n. destruct (s n); auto. Qed.

Lemma agree_sym D s1 s2 : agree D s1 s2 -> agree D s2 s1.
Proof.
  intros H n. specialize (H n).
  destruct (s1 n), (s2 n); auto.
  destruct H as [L H]. split; auto. intros j Hj. symmetry; auto.
Qed.

Lemma agree_trans D s1 s2 s3 : agree D s1 s2 -> agree D s2 s3 -> agree D s1 s3.
Proof.
  intros H1 H2 n. specialize (H1 n). specialize (H2 n).
  destruct (s1 n), (s2 n), (s3 n); try contradiction; auto.
  destruct H1 as [L1 H1], H2 as [L2 H2]. split; [congruence|].
  intros j Hj. rewrite H1, H2; auto.
Qed.

Lemma agree_mono D D' s1 s2 :
  (forall n j, D n j = true -> D' n j = true) -> agree D s1 s2 -> agree D' s1 s2.
Proof.
  intros HD H n. specialize (H n).
  destruct (s1 n), (s2 n); auto. destruct H as [L H]. split; auto.
  intros j Hj. apply H. destruct (D n j) eqn:E; auto.
  rewrite (HD _ _ E) in Hj. discriminate.
Qed.

Lemma agree_read D s1 s2 n i :
  agree D s1 s2 -> D n i = false -> read s1 n i = read s2 n i.
Proof.
  intros H Hd. specialize (H n). unfold read.
  destruct (s1 n), (s2 n); try contradiction; auto.
  destruct H as [_ H]. auto.
Qed.

(** Three agreements whose marked positions have no common point make
    the stores equal. *)
Lemma agree_three_eq D1 D2 D3 s1 s2 :
  agree D1 s1 s2 -> agree D2 s1 s2 -> agree D3 s1 s2 ->
  (forall n j, D1 n j && D2 n j && D3 n j = false) ->
  forall n, s1 n = s2 n.
Proof.
  intros H1 H2 H3 HD n.
  specialize (H1 n). specialize (H2 n). specialize (H3 n). specialize (HD n).
  destruct (s1 n) as [a1|], (s2 n) as [a2|]; try contradiction; auto.
  f_equal. apply nth_error_ext. intros j. specialize (HD j).
  destruct H1 as [_ H1], H2 as [_ H2], H3 as [_ H3].
  destruct (D1 n j) eqn:E1; [destruct (D2 n j) eqn:E2|]; simpl in HD; auto.
Qed.

(** An agreement that marks no position of [n] gives the whole array. *)
Lemma agree_array D s1 s2 n :
  agree D s1 s2 -> (forall j, D n j = false) -> s1 n = s2 n.
Proof.
  intros H HD. specialize (H n).
  destruct (s1 n) as [a1|], (s2 n) as [a2|]; try contradiction; auto.
  destruct H as [_ H]. f_equal. apply nth_error_ext. auto.
Qed.

Section Frame.
Context {A B : Type} (W : string -> nat -> bool).

Lemma frame_ret (x : A) : frame W (ret x).
Proof. intros s y s' E. injection E as <- <-. apply agree_refl. Qed.

Lemma frame_fail : frame W (@fail A).
Proof. intros s y s' E. discriminate. Qed.

Lemma frame_bind (m : M A) (k : A -> M B) :
  frame W m -> (forall x, frame W (k x)) -> frame W (bind m k).
Proof.
  intros Hm Hk s y s'. unfold bind.
  destruct (m s) as [[x s1]|] eqn:E; [|discriminate].
  intros E2. apply agree_trans with s1; [exact (Hm _ _ _ E) | exact (Hk x _ _ _ E2)].
Qed.

Lemma frame_rd n i : frame W (rd n i).
Proof.
  intros s y s'. unfold rd. destruct (read s n i); [|discriminate].
  intros E. injection E as _ <-. apply agree_refl.
Qed.

Lemma frame_wr n i v : W n i = true -> frame W (wr n i v).
Proof.
  intros HW s y s'. unfold wr. destruct (s n) as [a|] eqn:Ea; [|discriminate].
  destruct (Nat.ltb i (length a)); [|discriminate].
  intros E. injection E as _ <-. intros m. unfold upd.
  destruct (String.eqb_spec m n) as [->|Hne].
  - rewrite Ea. split; [symmetry; apply length_list_set|].
    intros j Hj. rewrite nth_error_list_set.
    destruct (Nat.eqb_spec j i) as [->|]; [congruence|reflexivity].
  - destruct (s m); auto.
Qed.

End Frame.

Section Rel.
Context {A B : Type}.

Lemma rel_ret D (x : A) : rel D D (ret x).
Proof. intros s1 s2 H. simpl. auto. Qed.

Lemma rel_fail D D' : rel D D' (@fail A).
Proof. intros s1 s2 H. exact I. Qed.

Lemma rel_bind D D1 D2 (m : M A) (k : A -> M B) :
  rel D D1 m -> (forall x, rel D1 D2 (k x)) -> rel D D2 (bind m k).
Proof.
  intros Hm Hk s1 s2 H. unfold bind. specialize (Hm s1 s2 H).
  destruct (m s1) as [[x1 t1]|], (m s2) as [[x2 t2]|]; try contradiction; auto.
  destruct Hm as [<- Ht]. apply Hk. exact Ht.
Qed.

Lemma rel_weaken D D1 D2 (m : M A) :
  rel D D1 m -> (forall n j, D1 n j = true -> D2 n j = true) -> rel D D2 m.
Proof.
  intros Hm HD s1 s2 H. specialize (Hm s1 s2 H).
  destruct (m s1) as [[x1 t1]|], (m s2) as [[x2 t2]|]; try contradiction; auto.
  destruct Hm as [-> Ht]. split; auto. eapply agree_mono; eauto.
Qed.

End Rel.

Lemma rel_rd D n i : D n i = false -> rel D D (rd n i).
Proof.
  intros HD s1 s2 H. unfold rd. rewrite (agree_read D s1 s2 n i H HD).
  destruct (read s2 n i); auto.
Qed.

Lemma rel_wr D n i v : rel D (clear D n i) (wr n i v).
Proof.
  intros s1 s2 H. unfold wr. pose proof (H n) as Hn.
  destruct (s1 n) as [a1|] eqn:E1, (s2 n) as [a2|] eqn:E2; try contradiction; auto.
  destruct Hn as [L Hn]. rewrite L.
  destruct (Nat.ltb i (length a2)) eqn:Hlt; auto.
  split; auto. intros m. unfold upd, clear.
  destruct (String.eqb_spec m n) as [->|Hne].
  - rewrite !length_list_set. split; auto. intros j Hj.
    rewrite !nth_error_list_set, L.
    destruct (Nat.eqb j i) eqn:Eji; auto.
    apply Hn. rewrite andb_true_r in Hj. exact Hj.
  - specialize (H m). destruct (s1 m), (s2 m); auto.
    destruct H as [L' H]. split; auto. intros j Hj. apply H.
    rewrite andb_true_r in Hj. exact Hj.
Qed.

Lemma rel_wr_keep D n i v : rel D D (wr n i v).
Proof.
  eapply rel_weaken; [apply rel_wr|]. unfold clear.
  intros m j Hj. apply andb_true_iff in Hj. tauto.
Qed.

(** Read positions that are not marked: the side condition of [rel_rd]. *)
Ltac solve_unmarked :=
  unfold clear; cbn [String.eqb Ascii.eqb Bool.eqb negb andb orb existsb];
  rewrite ?Nat.eqb_refl; reflexivity.

(** [rel D D m] for a method program that only reads unmarked positions. *)
Ltac rel_keep :=
  repeat (cbv beta zeta;
    match goal with
    | |- rel _ _ (bind _ _) => eapply rel_bind; [|intros]
    | |- rel _ _ (ret _) => apply rel_ret
    | |- rel _ _ fail => apply rel_fail
    | |- rel _ _ (rd _ _) => apply rel_rd; solve_unmarked
    | |- rel _ _ (wr _ _ _) => apply rel_wr_keep
    end).

(** [frame W m] for a method program that only writes marked positions. *)
Ltac frame_prog :=
  repeat (cbv beta zeta;
    match goal with
    | |- frame _ (bind _ _) => apply frame_bind; [|intros]
    | |- frame _ (ret _) => apply frame_ret
    | |- frame _ fail => apply frame_fail
    | |- frame _ (rd _ _) => apply frame_rd
    | |- frame _ (wr _ _ _) => apply frame_wr;
        cbn [String.eqb Ascii.eqb Bool.eqb negb andb orb existsb];
        rewrite ?Nat.eqb_refl; reflexivity
    end).

(** ** Helpers for the statements *)

Definition lift2 (f : Q -> Q -> Q) (a b : option Q) : option Q :=
  match a, b with
  | Some x, Some y => Some (f x y)
  | _, _ => None
  end.

Definition lift3 (f : Q -> Q -> Q -> Q) (a b c : option Q) : option Q :=
  match a, b, c with
  | Some x, Some y, Some z => Some (f x y z)
  | _, _, _ => None
  end.

Lemma qeq_opt_refl a : qeq_opt a a.
Proof. destruct a; simpl; auto. reflexivity. Qed.

(** Position, velocity and density of a particle. *)
Definition pos_vel_dens : list string := ["x"; "y"; "z"; "u"; "v"; "w"; "rho"].

(** The predictor copies [(q0, q)] written by [initialize]. *)
Definition pred_pairs (k : step_kind) : list (string * string) :=
  match k with
  | WCSPH | WCSPHTVDRK3 =>
      [("x0","x"); ("y0","y"); ("z0","z"); ("u0","u"); ("v0","v"); ("w0","w");
       ("rho0","rho")]
  | SolidMech =>
      [("x0","x"); ("y0","y"); ("z0","z"); ("u0","u"); ("v0","v"); ("w0","w");
       ("rho0","rho"); ("e0","e"); ("s000","s00"); ("s010","s01");
       ("s020","s02"); ("s110","s11"); ("s120","s12"); ("s220","s22")]
  | GasDFluid =>
      [("x0","x"); ("y0","y"); ("z0","z"); ("u0","u"); ("v0","v"); ("w0","w");
       ("e0","e"); ("h0","h")]
  | TwoStageRigidBody | OneStageRigidBody =>
      [("u0","u"); ("v0","v"); ("w0","w"); ("x0","x"); ("y0","y"); ("z0","z")]
  | _ => []
  end.

Definition preds (k : step_kind) : list string := map fst (pred_pairs k).

(** Properties a zero step may change besides the predictor copies:
    bookkeeping and derived fields. *)
Definition bookkeeping (k : step_kind) : list string :=
  match k with
  | GasDFluid => ["converged"; "omega"]
  | TransportVelocity => ["uhat"; "vhat"; "vmag2"]
  | AdamiVerlet => ["vmag2"]
  | _ => []
  end.

Definition dt0_touched (k : step_kind) : list string := preds k ++ bookkeeping k.

Ltac case_in H :=
  cbn in H;
  repeat match type of H with
         | _ \/ _ => destruct H as [H|H]
         end;
  first [ contradiction | injection H; intros; subst | subst ].

Ltac case_name n :=
  repeat (match goal with
          | |- context [String.eqb n ?m] =>
              destruct (String.eqb_spec n m) as [Heqn|?]; [subst n|]
          end; cbn [String.eqb Ascii.eqb Bool.eqb] in *).

Ltac finish_q :=
  first [ apply qeq_opt_refl
        | cbn [qeq_opt lift2 lift3]; ring
        | exfalso;
          match goal with
          | Hn : ~ In _ _ |- _ => apply Hn; cbn; tauto
          end ].

(** ** Concrete particle groups for the witnesses *)

Fixpoint mk_store (l : list (string * list Q)) : store :=
  match l with
  | [] => fun _ => None
  | (n, a) :: t => upd (mk_store t) n a
  end.

(** The store a successful run leaves (the input store on an error). *)
Definition run_store (m : M unit) (s : store) : store :=
  match m s with
  | Some (_, s') => s'
  | None => s
  end.

(** Two particles carrying every property any of the schemes uses, with
    pairwise different values. *)
Definition example_group : store :=
  mk_store
  [("x", [1#1; 101#1]);
   ("y", [2#1; 102#1]);
   ("z", [3#1; 103#1]);
   ("u", [4#1; 104#1]);
   ("v", [5#1; 105#1]);
   ("w", [6#1; 106#1]);
   ("rho", [7#1; 107#1]);
   ("x0", [8#1; 108#1]);
   ("y0", [9#1; 109#1]);
   ("z0", [10#1; 110#1]);
   ("u0", [11#1; 111#1]);
   ("v0", [12#1; 112#1]);
   ("w0", [13#1; 113#1]);
   ("rho0", [14#1; 114#1]);
   ("au", [15#1; 115#1]);
   ("av", [16#1; 116#1]);
   ("aw", [17#1; 117#1]);
   ("ax", [18#1; 118#1]);
   ("ay", [19#1; 119#1]);
   ("az", [20#1; 120#1]);
   ("arho", [21#1; 121#1]);
   ("e", [22#1; 122#1]);
   ("e0", [23#1; 123#1]);
   ("ae", [24#1; 124#1]);
   ("h", [25#1; 125#1]);
   ("h0", [26#1; 126#1]);
   ("converged", [27#1; 127#1]);
   ("omega", [28#1; 128#1]);
   ("s00", [29#1; 129#1]);
   ("s01", [30#1; 130#1]);
   ("s02", [31#1; 131#1]);
   ("s11", [32#1; 132#1]);
   ("s12", [33#1; 133#1]);
   ("s22", [34#1; 134#1]);
   ("s000", [35#1; 135#1]);
   ("s010", [36#1; 136#1]);
   ("s020", [37#1; 137#1]);
   ("s110", [38#1; 138#1]);
   ("s120", [39#1; 139#1]);
   ("s220", [40#1; 140#1]);
   ("as00", [41#1; 141#1]);
   ("as01", [42#1; 142#1]);
   ("as02", [43#1; 143#1]);
   ("as11", [44#1; 144#1]);
   ("as12", [45#1; 145#1]);
   ("as22", [46#1; 146#1]);
   ("uhat", [47#1; 147#1]);
   ("vhat", [48#1; 148#1]);
   ("auhat", [49#1; 149#1]);
   ("avhat", [50#1; 150#1]);
   ("vmag2", [51#1; 151#1])].

(** ** Further statement helpers *)

(** The quantities the TVD-RK3 stages update, with their rates. *)
Definition tvd_pairs : list (string * string) :=
  [("u","au"); ("v","av"); ("w","aw"); ("x","ax"); ("y","ay"); ("z","az");
   ("rho","arho")].

(** The corrector updates [(q, q0, a)] of the predictor-corrector schemes:
    [stage2] writes [q = q0 + dt * a]. *)
Definition pc_updates (k : step_kind) : list (string * string * string) :=
  [("u","u0","au"); ("v","v0","av"); ("w","w0","aw");
   ("x","x0","ax"); ("y","y0","ay"); ("z","z0","az"); ("rho","rho0","arho")] ++
  match k with
  | SolidMech =>
      [("e","e0","ae"); ("s00","s000","as00"); ("s01","s010","as01");
       ("s02","s020","as02"); ("s11","s110","as11"); ("s12","s120","as12");
       ("s22","s220","as22")]
  | _ => []
  end.

(** Positions of particle [i], and positions of every other particle. *)
Definition at_index (i : nat) : string -> nat -> bool := fun _ j => Nat.eqb j i.
Definition off_index (i : nat) : string -> nat -> bool :=
  fun _ j => negb (Nat.eqb j i).

(** Two runs both fail, or both succeed with the same final store. *)
Definition same_result (r1 r2 : option (unit * store)) : Prop :=
  match r1, r2 with
  | Some (_, t1), Some (_, t2) => forall n, t1 n = t2 n
  | None, None => True
  | _, _ => False
  end.

(** Every position except those of the predictor arrays of scheme [k]. *)
Definition not_pred (k : step_kind) : string -> nat -> bool :=
  fun n _ => negb (existsb (String.eqb n) (preds k)).

(** What the integrator does to a particle between two [initialize] calls:
    it calls a stage, or the equation evaluator stores a value in some
    array (an acceleration, say) of some particle. *)
Inductive driver_event :=
| Stage (st : nat) (dt : Q)
| Evaluate (n : string) (j : nat) (v : Q).

Fixpoint drive (k : step_kind) (d_idx : nat) (evs : list driver_event) : M unit :=
  match evs with
  | [] => ret tt
  | Stage st dt :: t => method k st d_idx dt ;; drive k d_idx t
  | Evaluate n j v :: t => wr n j v ;; drive k d_idx t
  end.

(** Only stage calls (not [initialize]), and the evaluator writes no
    predictor array. *)
Definition driver_ok (k : step_kind) (evs : list driver_event) : bool :=
  forallb (fun ev => match ev with
                     | Stage st _ => negb (Nat.eqb st 0)
                     | Evaluate n _ _ => negb (existsb (String.eqb n) (preds k))
                     end) evs.

Definition example_events : list driver_event :=
  [Stage 1 (1#2); Evaluate "au" 1 (5#1); Evaluate "arho" 0 (3#1); Stage 2 (1#2)].

(** The density and its rate, at every particle. *)
Definition density_at : string -> nat -> bool :=
  fun n _ => String.eqb n "rho" || String.eqb n "arho".

(** The advection velocity of particle [i]. *)
Definition hat_at (i : nat) : string -> nat -> bool :=
  fun n j => (String.eqb n "uhat" || String.eqb n "vhat") && Nat.eqb j i.

(** ** Persistence of particle groups ([pysph.solver.utils])

    Modelled from the spec: [dump], [dump_v1] and [load] are not part of
    the sources at hand (only their tests are); they follow the
    persistence format of the specification.  A particle array keeps its
    properties, constants and the ordered list of output arrays;
    [set_output_arrays] replaces that list; [dump] saves the selected
    arrays (all when none is selected), the constants and the list,
    under format version 2; [dump_v1] saves all properties and nothing
    else, under version 1; [load] rebuilds the groups by name and fails
    on an unknown version. *)
Module SolverUtils.

Record particle_array := {
  pa_name : string;
  properties : list (string * list Q);
  constants : list (string * list Q);
  output_property_arrays : list string
}.

Definition set_output_arrays (pa : particle_array) (output_arrays : list string)
  : particle_array :=
  {| pa_name := pa_name pa; properties := properties pa;
     constants := constants pa; output_property_arrays := output_arrays |}.

Record saved_array := {
  saved_arrays : list (string * list Q);
  saved_constants : list (string * list Q);
  saved_output_arrays : list string
}.

Record snapshot := {
  version : nat;
  snap_arrays : list (string * saved_array);
  snap_solver_data : list (string * Q)
}.

Definition selected (pa : particle_array) : list (string * list Q) :=
  match output_property_arrays pa with
  | [] => properties pa
  | names =>
      filter (fun p => existsb (String.eqb (fst p)) names) (properties pa)
  end.

Definition dump (arrays : list particle_array) (solver_data : list (string * Q))
  : snapshot :=
  {| version := 2%nat;
     snap_arrays :=
       map (fun pa => (pa_name pa,
                       {| saved_arrays := selected pa;
                          saved_constants := constants pa;
                          saved_output_arrays := output_property_arrays pa |}))
           arrays;
     snap_solver_data := solver_data |}.

Definition dump_v1 (arrays : list particle_array) (solver_data : list (string * Q))
  : snapshot :=
  {| version := 1%nat;
     snap_arrays :=
       map (fun pa => (pa_name pa,
                       {| saved_arrays := properties pa; saved_constants := [];
                          saved_output_arrays := [] |}))
           arrays;
     snap_solver_data := solver_data |}.

Record loaded := {
  loaded_arrays : list (string * particle_array);
  loaded_solver_data : list (string * Q)
}.

Definition load (snap : snapshot) : option loaded :=
  match version snap with
  | 1%nat =>
      Some {| loaded_arrays :=
                map (fun p => (fst p, {| pa_name := fst p;
                                         properties := saved_arrays (snd p);
                                         constants := [];
                                         output_property_arrays := [] |}))
                    (snap_arrays snap);
              loaded_solver_data := snap_solver_data snap |}
  | 2%nat =>
      Some {| loaded_arrays :=
                map (fun p => (fst p, {| pa_name := fst p;
                                         properties := saved_arrays (snd p);
                                         constants := saved_constants (snd p);
                                         output_property_arrays :=
                                           saved_output_arrays (snd p) |}))
                    (snap_arrays snap);
              loaded_solver_data := snap_solver_data snap |}
  | _ => None
  end.

(** [data['arrays'][name]]. *)
Definition lookup_array (name : string) (l : list (string * particle_array))
  : option particle_array :=
  option_map snd (find (fun p => String.eqb (fst p) name) l).

End SolverUtils.

(** ** What each method assigns *)

Open Scope nat_scope.

(** The arrays each method assigns, read off the left-hand sides of its
    body ([d_u[d_idx] = ...] or [d_u[d_idx] += ...]). *)
Definition writes (k : step_kind) (st : nat) : list string :=
  match k, st with
  | Euler, 1 => ["u"; "v"; "w"; "x"; "y"; "z"; "rho"]
  | WCSPH, 0 | WCSPHTVDRK3, 0 =>
      ["x0"; "y0"; "z0"; "u0"; "v0"; "w0"; "rho0"]
  | WCSPH, (1 | 2) | WCSPHTVDRK3, (1 | 2 | 3) =>
      ["u"; "v"; "w"; "x"; "y"; "z"; "rho"]
  | SolidMech, 0 =>
      ["x0"; "y0"; "z0"; "u0"; "v0"; "w0"; "rho0"; "e0";
       "s000"; "s010"; "s020"; "s110"; "s120"; "s220"]
  | SolidMech, (1 | 2) =>
      ["u"; "v"; "w"; "x"; "y"; "z"; "rho"; "e";
       "s00"; "s01"; "s02"; "s11"; "s12"; "s22"]
  | TransportVelocity, 1 => ["u"; "v"; "uhat"; "vhat"; "x"; "y"]
  | TransportVelocity, 2 => ["u"; "v"; "vmag2"]
  | AdamiVerlet, 1 => ["u"; "v"; "x"; "y"]
  | AdamiVerlet, 2 => ["u"; "v"; "x"; "y"; "rho"; "vmag2"]
  | GasDFluid, 0 =>
      ["x0"; "y0"; "z0"; "u0"; "v0"; "w0"; "e0"; "h0"; "converged"; "omega"]
  | GasDFluid, (1 | 2) => ["u"; "v"; "w"; "x"; "y"; "z"; "e"]
  | (TwoStageRigidBody | OneStageRigidBody), 0 =>
      ["u0"; "v0"; "w0"; "x0"; "y0"; "z0"]
  | TwoStageRigidBody, (1 | 2) | OneStageRigidBody, 2 =>
      ["u"; "v"; "w"; "x"; "y"; "z"]
  | VerletSymplecticWCSPH, 1 => ["x"; "y"; "z"]
  | VerletSymplecticWCSPH, 2 => ["u"; "v"; "w"; "x"; "y"; "z"]
  | _, _ => []
  end.

(** Methods whose body is [pass], their own or the one of
    [IntegratorStep]. *)
Definition is_pass (k : step_kind) (st : nat) : bool :=
  match k, st with
  | Euler, (0 | 2) | TransportVelocity, 0 | AdamiVerlet, 0
  | OneStageRigidBody, 1 | VerletSymplecticWCSPH, 0 => true
  | _, _ => false
  end.

(** Methods that compute every array they assign only from arrays they do
    not assign (predictors, rates), and the [pass] methods. *)
Definition recomputes (k : step_kind) (st : nat) : bool :=
  match k, st with
  | _, 0 => true
  | WCSPH, (1 | 2) | WCSPHTVDRK3, 1 | SolidMech, (1 | 2) | GasDFluid, (1 | 2)
  | TwoStageRigidBody, (1 | 2) => true
  | _, _ => is_pass k st
  end.

Open Scope Q_scope.

(** Element [i] of the arrays method [st] of [k] assigns. *)
Definition writes_at (k : step_kind) (st i : nat) : string -> nat -> bool :=
  fun n j => existsb (String.eqb n) (writes k st) && Nat.eqb j i.

(** The rate arrays the equations compute for the integrator. *)
Definition rate_arrays : list string :=
  ["au"; "av"; "aw"; "ax"; "ay"; "az"; "arho"; "ae";
   "as00"; "as01"; "as02"; "as11"; "as12"; "as22"; "auhat"; "avhat"].

(** ** Per-scheme facts used by several claims *)

Ltac dt0_tac :=
  intros E; start_wp E; unfold_methods; wp_prog;
  intros n Hn; simp_store; case_name n; simp_store; finish_q.

Section ZeroStep.
Variables (i : nat) (s s' : store).

Lemma dt0_Euler : timestep Euler i 0 s = Some (tt, s') ->
  forall n, ~ In n (dt0_touched Euler) -> qeq_opt (read s' n i) (read s n i).
Proof. dt0_tac. Qed.
Lemma dt0_WCSPH : timestep WCSPH i 0 s = Some (tt, s') ->
  forall n, ~ In n (dt0_touched WCSPH) -> qeq_opt (read s' n i) (read s n i).
Proof. dt0_tac. Qed.
Lemma dt0_WCSPHTVDRK3 : timestep WCSPHTVDRK3 i 0 s = Some (tt, s') ->
  forall n, ~ In n (dt0_touched WCSPHTVDRK3) -> qeq_opt (read s' n i) (read s n i).
Proof. dt0_tac. Qed.
Lemma dt0_SolidMech : timestep SolidMech i 0 s = Some (tt, s') ->
  forall n, ~ In n (dt0_touched SolidMech) -> qeq_opt (read s' n i) (read s n i).
Proof. dt0_tac. Qed.
Lemma dt0_TransportVelocity : timestep TransportVelocity i 0 s = Some (tt, s') ->
  forall n, ~ In n (dt0_touched TransportVelocity) -> qeq_opt (read s' n i) (read s n i).
Proof. dt0_tac. Qed.
Lemma dt0_AdamiVerlet : timestep AdamiVerlet i 0 s = Some (tt, s') ->
  forall n, ~ In n (dt0_touched AdamiVerlet) -> qeq_opt (read s' n i) (read s n i).
Proof. dt0_tac. Qed.
Lemma dt0_GasDFluid : timestep GasDFluid i 0 s = Some (tt, s') ->
  forall n, ~ In n (dt0_touched GasDFluid) -> qeq_opt (read s' n i) (read s n i).
Proof. dt0_tac. Qed.
Lemma dt0_TwoStageRigidBody : timestep TwoStageRigidBody i 0 s = Some (tt, s') ->
  forall n, ~ In n (dt0_touched TwoStageRigidBody) -> qeq_opt (read s' n i) (read s n i).
Proof. dt0_tac. Qed.
Lemma dt0_OneStageRigidBody : timestep OneStageRigidBody i 0 s = Some (tt, s') ->
  forall n, ~ In n (dt0_touched OneStageRigidBody) -> qeq_opt (read s' n i) (read s n i).
Proof. dt0_tac. Qed.
Lemma dt0_VerletSymplecticWCSPH : timestep VerletSymplecticWCSPH i 0 s = Some (tt, s') ->
  forall n, ~ In n (dt0_touched VerletSymplecticWCSPH) -> qeq_opt (read s' n i) (read s n i).
Proof. dt0_tac. Qed.

End ZeroStep.

Lemma pos_vel_dens_untouched k n : In n pos_vel_dens -> ~ In n (dt0_touched k).
Proof. intros H. case_in H; destruct k; cbn; intuition discriminate. Qed.

Lemma agree_unmarked_eq D s1 s2 n :
  agree D s1 s2 -> (forall j, D n j = false) -> s1 n = s2 n.
Proof.
  intros H HD. specialize (H n).
  destruct (s1 n) as [a1|], (s2 n) as [a2|]; try contradiction; auto.
  destruct H as [L H]. f_equal. apply nth_error_ext. intros j. apply H, HD.
Qed.

Lemma rel_same_result D (m : M unit) s1 s2 :
  rel D (fun _ _ => false) m -> agree D s1 s2 -> same_result (m s1) (m s2).
Proof.
  intros Hm H. specialize (Hm s1 s2 H). unfold same_result.
  destruct (m s1) as [[[] t1]|], (m s2) as [[[] t2]|]; try contradiction; auto.
  destruct Hm as [_ A]. intros n. apply (agree_unmarked_eq _ _ _ _ A). reflexivity.
Qed.

(** [rel D D' m] where [m] reads only positions not yet marked and forgets
    the positions it writes. *)
Ltac rel_evolve :=
  repeat (cbv beta zeta;
    match goal with
    | |- rel _ _ (bind _ _) => eapply rel_bind; [|intros]
    | |- rel _ _ (rd _ _) => apply rel_rd; solve_unmarked
    | |- rel _ _ (wr _ _ _) => apply rel_wr
    end).

(** Every method call at index [i] reads and writes positions of particle
    [i] only. *)
Lemma method_local k st i dt :
  rel (off_index i) (off_index i) (method k st i dt) /\
  frame (at_index i) (method k st i dt).
Proof.
  unfold at_index, off_index.
  destruct k, st as [|[|[|[|st]]]]; unfold_methods; (split; [rel_keep | frame_prog]).
Qed.

Lemma at_off_index i j s1 s2 :
  i <> j -> agree (at_index i) s1 s2 -> agree (off_index j) s1 s2.
Proof.
  intros Hij. apply agree_mono. unfold at_index, off_index. intros n k Hk.
  apply Nat.eqb_eq in Hk. subst k. apply negb_true_iff, Nat.eqb_neq. exact Hij.
Qed.

Lemma at_index_pair_l i j s1 s2 :
  agree (at_index i) s1 s2 -> agree (fun _ k => Nat.eqb k i || Nat.eqb k j) s1 s2.
Proof. apply agree_mono. unfold at_index. intros n k ->. reflexivity. Qed.

Lemma at_index_pair_r i j s1 s2 :
  agree (at_index j) s1 s2 -> agree (fun _ k => Nat.eqb k i || Nat.eqb k j) s1 s2.
Proof. apply agree_mono. unfold at_index. intros n k ->. apply orb_true_r. Qed.

(** Two programs local to distinct particles commute. *)
Lemma local_calls_commute (m1 m2 : M unit) i j s :
  i <> j ->
  rel (off_index i) (off_index i) m1 -> frame (at_index i) m1 ->
  rel (off_index j) (off_index j) m2 -> frame (at_index j) m2 ->
  same_result ((m1 ;; m2) s) ((m2 ;; m1) s).
Proof.
  intros Hij Hr1 Hf1 Hr2 Hf2. unfold bind.
  destruct (m1 s) as [[[] s1]|] eqn:E1; destruct (m2 s) as [[[] s2]|] eqn:E2.
  - pose proof (Hf1 _ _ _ E1) as F1. pose proof (Hf2 _ _ _ E2) as F2.
    pose proof (Hr2 s1 s (at_off_index i j _ _ Hij (agree_sym _ _ _ F1))) as R2.
    rewrite E2 in R2. destruct (m2 s1) as [[[] t12]|] eqn:E12; [|contradiction].
    destruct R2 as [_ R2].
    pose proof (Hr1 s2 s (at_off_index j i _ _ (not_eq_sym Hij) (agree_sym _ _ _ F2))) as R1.
    rewrite E1 in R1. destruct (m1 s2) as [[[] t21]|] eqn:E21; [|contradiction].
    destruct R1 as [_ R1].
    pose proof (Hf2 _ _ _ E12) as F12. pose proof (Hf1 _ _ _ E21) as F21.
    intros q. apply (agree_three_eq (off_index i) (off_index j)
             (fun _ k => Nat.eqb k i || Nat.eqb k j) t12 t21).
    + apply agree_trans with s1.
      * apply agree_sym. apply (at_off_index j i _ _ (not_eq_sym Hij) F12).
      * apply agree_sym. exact R1.
    + apply agree_trans with s2; [exact R2|].
      apply (at_off_index i j _ _ Hij F21).
    + apply agree_trans with s1; [apply agree_sym, at_index_pair_r, F12|].
      apply agree_trans with s; [apply agree_sym, at_index_pair_l, F1|].
      apply agree_trans with s2; [apply at_index_pair_r, F2|].
      apply at_index_pair_l, F21.
    + intros n k. unfold off_index.
      destruct (Nat.eqb k i), (Nat.eqb k j); reflexivity.
  - pose proof (Hf1 _ _ _ E1) as F1.
    pose proof (Hr2 s1 s (at_off_index i j _ _ Hij (agree_sym _ _ _ F1))) as R2.
    rewrite E2 in R2. destruct (m2 s1) as [[[] t12]|]; [contradiction|exact I].
  - pose proof (Hf2 _ _ _ E2) as F2.
    pose proof (Hr1 s2 s (at_off_index j i _ _ (not_eq_sym Hij) (agree_sym _ _ _ F2))) as R1.
    rewrite E1 in R1. destruct (m1 s2) as [[[] t21]|]; [contradiction|exact I].
  - exact I.
Qed.

(** No stage writes a predictor array. *)
Lemma stage_keeps_preds k st i dt :
  st <> 0%nat -> frame (not_pred k) (method k st i dt).
Proof.
  intros Hst. unfold not_pred, preds.
  destruct k, st as [|[|[|[|st]]]]; try congruence; unfold_methods;
    cbn [pred_pairs map fst]; frame_prog.
Qed.

Lemma drive_keeps_preds k i evs :
  driver_ok k evs = true -> frame (not_pred k) (drive k i evs).
Proof.
  induction evs as [|[st dt|n j v] evs IH]; cbn [drive driver_ok forallb];
    intros H.
  - apply frame_ret.
  - apply andb_true_iff in H as [Hst H]. apply frame_bind; [|intros; auto].
    apply stage_keeps_preds. intros ->. discriminate.
  - apply andb_true_iff in H as [Hn H]. apply frame_bind; [|intros; auto].
    apply frame_wr. exact Hn.
Qed.

(** [initialize] copies each current value into its predictor. *)
Lemma initialize_copies k i dt s s1 :
  method k 0 i dt s = Some (tt, s1) ->
  forall q0 q, In (q0, q) (pred_pairs k) -> read s1 q0 i = read s q i.
Proof.
  intros E. destruct k; start_wp E; unfold_methods; wp_prog;
    intros q0 q Hin; case_in Hin; simp_store; reflexivity.
Qed.

Lemma pred_marked k q0 q :
  In (q0, q) (pred_pairs k) -> forall j, not_pred k q0 j = false.
Proof.
  intros Hin j. unfold not_pred, preds. apply negb_false_iff, existsb_exists.
  exists q0. split; [apply (in_map fst _ _ Hin)|apply String.eqb_refl].
Qed.

Ltac pc_tac :=
  split;
  [ intros s s' E; start_wp E; unfold_methods; wp_prog; simp_store;
    intros q q0 ac Hin; case_in Hin; simp_store; reflexivity
  | intros s s' E; start_wp E; unfold_methods; wp_prog; simp_store;
    intros q q0 ac Hin; case_in Hin; simp_store; reflexivity ].

Lemma pc_WCSPH i dt :
  (forall s s', method WCSPH 2 i dt s = Some (tt, s') ->
     forall q q0 a, In (q, q0, a) (pc_updates WCSPH) ->
     read s' q i = lift2 (fun x y => x + dt * y) (read s q0 i) (read s a i)) /\
  (forall s s', timestep WCSPH i dt s = Some (tt, s') ->
     forall q q0 a, In (q, q0, a) (pc_updates WCSPH) ->
     read s' q i = lift2 (fun x y => x + dt * y) (read s q i) (read s a i)).
Proof. pc_tac. Qed.

Lemma pc_SolidMech i dt :
  (forall s s', method SolidMech 2 i dt s = Some (tt, s') ->
     forall q q0 a, In (q, q0, a) (pc_updates SolidMech) ->
     read s' q i = lift2 (fun x y => x + dt * y) (read s q0 i) (read s a i)) /\
  (forall s s', timestep SolidMech i dt s = Some (tt, s') ->
     forall q q0 a, In (q, q0, a) (pc_updates SolidMech) ->
     read s' q i = lift2 (fun x y => x + dt * y) (read s q i) (read s a i)).
Proof. pc_tac. Qed.

(** ** Facts about what the methods assign *)

Lemma method_writes k st i dt : frame (writes_at k st i) (method k st i dt).
Proof.
  unfold writes_at.
  destruct k, st as [|[|[|[|st]]]]; unfold_methods; cbn [writes]; frame_prog.
Qed.

(** The positions still marked after [rel_evolve] are none. *)
Ltac cleared_tac :=
  let n := fresh "n" in let j := fresh "j" in let H := fresh "H" in
  intros n j H; unfold clear in H; cbv beta in H; cbn [existsb] in H;
  repeat (match type of H with
          | context [String.eqb n ?m] => destruct (String.eqb_spec n m) as [->|?]
          end; cbn [String.eqb Ascii.eqb Bool.eqb andb orb negb] in H);
  first [ discriminate H
        | match type of H with
          | context [Nat.eqb j ?i] => destruct (Nat.eqb j i)
          end; cbn in H; discriminate H ].

Ltac overwrite_tac :=
  repeat (cbv beta zeta;
    match goal with
    | |- rel _ _ (bind _ _) => eapply rel_bind; [|intros]
    | |- rel _ _ (ret _) => apply rel_ret
    | |- rel _ _ fail => apply rel_fail
    | |- rel _ _ (rd _ _) => apply rel_rd; solve_unmarked
    | |- rel _ _ (wr _ _ _) => apply rel_wr
    end).

(** A recomputing method reads none of the positions it assigns before
    assigning them. *)
Lemma method_overwrites k st i dt :
  recomputes k st = true ->
  rel (writes_at k st i) (fun _ _ => false) (method k st i dt).
Proof.
  intros Hr. unfold writes_at.
  destruct k, st as [|[|[|[|st]]]]; cbn in Hr; try discriminate Hr;
    unfold_methods; cbn [writes];
    (eapply rel_weaken; [overwrite_tac | cbn [existsb andb]; cleared_tac]).
Qed.

Lemma rel_frame_same_result D (m1 m2 : M unit) s s1 :
  rel D (fun _ _ => false) m2 -> frame D m1 -> m1 s = Some (tt, s1) ->
  same_result (m2 s1) (m2 s).
Proof.
  intros R F E. apply (rel_same_result D); [exact R|].
  apply agree_sym. exact (F _ _ _ E).
Qed.

Lemma bind_none {A B} (m : M A) (k : A -> M B) s : m s = None -> bind m k s = None.
Proof. unfold bind. intros ->. reflexivity. Qed.

Lemma rd_out_of_range n i s :
  (forall n a, s n = Some a -> (length a <= i)%nat) -> rd n i s = None.
Proof.
  intros H. unfold rd, read. destruct (s n) as [a|] eqn:E; [|reflexivity].
  rewrite (proj2 (nth_error_None a i) (H n a E)). reflexivity.
Qed.

Lemma method_writes_present k st i dt s s' :
  method k st i dt s = Some (tt, s') ->
  forall n, In n (writes k st) -> read s' n i <> None.
Proof.
  intros E. destruct k, st as [|[|[|[|st]]]]; start_wp E; unfold_methods; wp_prog;
    cbn [writes]; simp_store; intros n Hn; case_in Hn; simp_store; discriminate.
Qed.

Lemma sum_squares_nonneg u v : 0 <= u * u + v * v.
Proof. nra. Qed.

Lemma example_group_lengths n a :
  example_group n = Some a -> length a = 2%nat.
Proof.
  unfold example_group. cbn [mk_store]. unfold upd. intros H.
  repeat (destruct (String.eqb n _); [injection H as <-; reflexivity|]).
  discriminate H.
Qed.

(** ** Double precision

    The Python code computes in IEEE doubles, not in the exact rationals
    of the model above.  [Double] embeds the update of one integrated
    quantity [q] (with predictor [q0] and rate [a]) by the methods of
    WCSPHTVDRK3Step over Rocq's primitive 64-bit floats, which round to
    nearest as Python's floats do, to show where the two differ. *)
Module Double.
Import PrimFloat.
Local Open Scope float_scope.

(** [d_q[d_idx] = d_q0[d_idx] + dt * d_aq[d_idx]] (stage1). *)
Definition tvd_stage1 (q0 a dt : float) : float := q0 + dt * a.

(** [0.75*d_q0[d_idx] + 0.25*( d_q[d_idx] + dt * d_aq[d_idx] )] (stage2). *)
Definition tvd_stage2 (q0 q a dt : float) : float :=
  0.75 * q0 + 0.25 * (q + dt * a).

(** [oneby3*d_q0[d_idx] + twoby3*( d_q[d_idx] + dt * d_aq[d_idx] )] with
    [oneby3 = 1./3.] and [twoby3 = 2./3.] (stage3). *)
Definition tvd_stage3 (q0 q a dt : float) : float :=
  let oneby3 := 1 / 3 in
  let twoby3 := 2 / 3 in
  oneby3 * q0 + twoby3 * (q + dt * a).

(** [initialize] ([d_q0 = d_q]) and the three stages with rates [a1],
    [a2], [a3] evaluated before each stage. *)
Definition tvd_timestep (q a1 a2 a3 dt : float) : float :=
  let q0 := q in
  let q1 := tvd_stage1 q0 a1 dt in
  let q2 := tvd_stage2 q0 q1 a2 dt in
  tvd_stage3 q0 q2 a3 dt.

(** In doubles a zero step of WCSPHTVDRK3Step does not keep the value:
    [rho = 7.0] (as in [example_group]) becomes [6.999999999999999]
    because [1./3.*7.0 + 2./3.*7.0] rounds below [7.0]; and a zero step
    against an infinite rate gives NaN ([0.0 * inf]). *)
Lemma tvd_zero_step_rounds :
  tvd_timestep 7 0 0 0 0 = 0x1.bffffffffffffp2 /\
  (tvd_timestep 7 0 0 0 0 =? 7) = false /\
  is_nan (tvd_stage1 7 infinity 0) = true.
Proof. vm_compute. repeat split. Qed.

End Double.

(** * Claims *)

(** ** C1 *)

(** C1 (as stated, refuted): "with [dt = 0], initialize and all stages leave
    every property unchanged except GasDFluidStep's [converged] and
    [omega]".  TransportVelocityStep sets [uhat] to [u] even for a zero
    step. *)
Lemma C1_transport_zero_step_changes_uhat :
  ~ (forall k i s s', timestep k i 0 s = Some (tt, s') ->
       forall n, n <> "converged" -> n <> "omega" ->
       qeq_opt (read s' n i) (read s n i)).
Proof.
  intros H.
  specialize (H TransportVelocity 0%nat example_group
                (run_store (timestep TransportVelocity 0 0) example_group)
                eq_refl "uhat" ltac:(discriminate) ltac:(discriminate)).
  vm_compute in H. discriminate.
Qed.

(** C1 (amended): in exact rational arithmetic, for every scheme, a
    timestep with [dt = 0] (initialize, then every stage) leaves position,
    velocity and density of the particle equal to their pre-step values,
    and every property except the predictor copies written by
    [initialize] and the bookkeeping fields of [bookkeeping k]
    ([converged], [omega]; [uhat], [vhat], [vmag2]; [vmag2]) keeps its
    value; TransportVelocityStep sets [uhat], [vhat] to [u], [v] and
    GasDFluidStep sets [converged] to 0 and [omega] to 1.  In IEEE doubles
    the equality is not exact: see [Double.tvd_zero_step_rounds]. *)
Theorem timestep_zero_dt_keeps_state k i s s' :
  timestep k i 0 s = Some (tt, s') ->
  (forall n, In n pos_vel_dens -> qeq_opt (read s' n i) (read s n i)) /\
  (forall n, ~ In n (dt0_touched k) -> qeq_opt (read s' n i) (read s n i)) /\
  (k = TransportVelocity ->
     qeq_opt (read s' "uhat" i) (read s "u" i) /\ qeq_opt (read s' "vhat" i) (read s "v" i)) /\
  (k = GasDFluid -> read s' "converged" i = Some 0 /\ read s' "omega" i = Some 1).
Proof.
  intros E.
  assert (H : forall n, ~ In n (dt0_touched k) -> qeq_opt (read s' n i) (read s n i)).
  { destruct k.
    - exact (dt0_Euler i s s' E).
    - exact (dt0_WCSPH i s s' E).
    - exact (dt0_WCSPHTVDRK3 i s s' E).
    - exact (dt0_SolidMech i s s' E).
    - exact (dt0_TransportVelocity i s s' E).
    - exact (dt0_AdamiVerlet i s s' E).
    - exact (dt0_GasDFluid i s s' E).
    - exact (dt0_TwoStageRigidBody i s s' E).
    - exact (dt0_OneStageRigidBody i s s' E).
    - exact (dt0_VerletSymplecticWCSPH i s s' E). }
  split; [|split; [exact H|split]].
  - intros n Hn. apply H. apply pos_vel_dens_untouched. exact Hn.
  - intros ->. start_wp E. unfold_methods. wp_prog. simp_store. split; finish_q.
  - intros ->. start_wp E. unfold_methods. wp_prog. simp_store. split; reflexivity.
Qed.

Lemma timestep_zero_dt_keeps_state_witness :
  let s' := run_store (timestep GasDFluid 1 0) example_group in
  timestep GasDFluid 1 0 example_group = Some (tt, s') /\
  (forall n, In n pos_vel_dens -> qeq_opt (read s' n 1) (read example_group n 1)) /\
  read s' "converged" 1 = Some 0 /\ read s' "omega" 1 = Some 1.
Proof.
  intros s'. split; [reflexivity|].
  destruct (timestep_zero_dt_keeps_state GasDFluid 1 example_group s' eq_refl)
    as [Hp [_ [_ Hg]]].
  exact (conj Hp (Hg eq_refl)).
Defined.

(** ** C2 *)

(** C2: for WCSPHTVDRK3Step, with the rates unchanged between the stages,
    [initialize] and the three stages (blends [3/4, 1/4] and [1/3, 2/3])
    give each of [u, v, w, x, y, z, rho] the value [q + dt * a_q] of one
    full Euler step from the pre-step value, exactly. *)
Theorem WCSPHTVDRK3_constant_rhs_is_euler i dt s s' :
  timestep WCSPHTVDRK3 i dt s = Some (tt, s') ->
  forall q a, In (q, a) tvd_pairs ->
  qeq_opt (read s' q i) (lift2 (fun q0 a0 => q0 + dt * a0) (read s q i) (read s a i)).
Proof.
  intros E. start_wp E. unfold_methods. wp_prog. simp_store.
  intros q ac Hin. case_in Hin; simp_store; finish_q.
Qed.

Lemma WCSPHTVDRK3_constant_rhs_is_euler_witness :
  let s' := run_store (timestep WCSPHTVDRK3 1 (1#2)) example_group in
  timestep WCSPHTVDRK3 1 (1#2) example_group = Some (tt, s') /\
  qeq_opt (read s' "u" 1)
    (lift2 (fun q0 a0 => q0 + (1#2) * a0) (read example_group "u" 1)
       (read example_group "au" 1)).
Proof.
  intros s'. split; [reflexivity|].
  apply (WCSPHTVDRK3_constant_rhs_is_euler 1 (1#2) example_group s');
    [reflexivity | cbn; tauto].
Defined.

(** ** C3 *)

(** C3: for WCSPHStep and SolidMechStep, [stage2] sets every corrected
    quantity to [q0 + dt * a_q] from the predictor [q0] and the rate alone
    (so its result does not depend on whether [stage1] ran), and
    [initialize], [stage1], [stage2] with unchanged rates give
    [q + dt * a_q] from the pre-step value. *)
Theorem predictor_corrector_single_step k i dt :
  k = WCSPH \/ k = SolidMech ->
  (forall s s', method k 2 i dt s = Some (tt, s') ->
     forall q q0 a, In (q, q0, a) (pc_updates k) ->
     read s' q i = lift2 (fun x y => x + dt * y) (read s q0 i) (read s a i)) /\
  (forall s s', timestep k i dt s = Some (tt, s') ->
     forall q q0 a, In (q, q0, a) (pc_updates k) ->
     read s' q i = lift2 (fun x y => x + dt * y) (read s q i) (read s a i)).
Proof.
  intros [-> | ->]; [apply pc_WCSPH | apply pc_SolidMech].
Qed.

Lemma predictor_corrector_single_step_witness :
  let s' := run_store (timestep SolidMech 1 (1#2)) example_group in
  timestep SolidMech 1 (1#2) example_group = Some (tt, s') /\
  read s' "s01" 1 =
    lift2 (fun x y => x + (1#2) * y) (read example_group "s01" 1)
      (read example_group "as01" 1).
Proof.
  intros s'. split; [reflexivity|].
  refine (proj2 (predictor_corrector_single_step SolidMech 1 (1#2) _)
            example_group s' eq_refl "s01" "s010" "as01" _);
    [right; reflexivity | cbn; tauto].
Defined.

(** ** C4 *)

(** C4: for TwoStageRigidBodyStep and OneStageRigidBodyStep, with the
    acceleration [(ax, ay, az)] unchanged, a timestep gives every velocity
    component [u0 + a*dt] and every coordinate [x0 + u0*dt + a*dt^2/2]. *)
Theorem rigid_body_projectile k i dt s s' :
  k = TwoStageRigidBody \/ k = OneStageRigidBody ->
  timestep k i dt s = Some (tt, s') ->
  forall q r a, In (q, r, a) [("x","u","ax"); ("y","v","ay"); ("z","w","az")] ->
  qeq_opt (read s' r i) (lift2 (fun u0 a0 => u0 + a0 * dt) (read s r i) (read s a i)) /\
  qeq_opt (read s' q i)
    (lift3 (fun x0 u0 a0 => x0 + u0 * dt + (1#2) * a0 * dt ^ 2)
       (read s q i) (read s r i) (read s a i)).
Proof.
  intros [-> | ->] E; start_wp E; unfold_methods; wp_prog; simp_store;
  intros q r ac Hin; case_in Hin; simp_store; split; finish_q.
Qed.

Lemma rigid_body_projectile_witness :
  let s' := run_store (timestep OneStageRigidBody 1 (1#2)) example_group in
  timestep OneStageRigidBody 1 (1#2) example_group = Some (tt, s') /\
  qeq_opt (read s' "u" 1)
    (lift2 (fun u0 a0 => u0 + a0 * (1#2)) (read example_group "u" 1)
       (read example_group "ax" 1)) /\
  qeq_opt (read s' "x" 1)
    (lift3 (fun x0 u0 a0 => x0 + u0 * (1#2) + (1#2) * a0 * (1#2) ^ 2)
       (read example_group "x" 1) (read example_group "u" 1)
       (read example_group "ax" 1)).
Proof.
  intros s'. split; [reflexivity|].
  apply (rigid_body_projectile OneStageRigidBody 1 (1#2) example_group s');
    [right; reflexivity | reflexivity | cbn; tauto].
Defined.

(** ** C5 *)

(** C5: after [initialize] at particle [i], any sequence of stage calls
    at [i], interleaved with any writes of the evaluator to arrays that are
    not predictors, leaves every predictor array as [initialize] left it,
    so its element [i] is still the current value at the start of the
    timestep. *)
Theorem stages_keep_predictors k i dt0 evs s s1 s' :
  driver_ok k evs = true ->
  method k 0 i dt0 s = Some (tt, s1) ->
  drive k i evs s1 = Some (tt, s') ->
  forall q0 q, In (q0, q) (pred_pairs k) ->
    s' q0 = s1 q0 /\ read s' q0 i = read s q i.
Proof.
  intros Hok E0 E1 q0 q Hin.
  assert (Hs : s' q0 = s1 q0).
  { symmetry. apply (agree_unmarked_eq (not_pred k)).
    - exact (drive_keeps_preds k i evs Hok _ _ _ E1).
    - exact (pred_marked k q0 q Hin). }
  split; [exact Hs|].
  rewrite <- (initialize_copies k i dt0 s s1 E0 q0 q Hin).
  unfold read. rewrite Hs. reflexivity.
Qed.

Lemma stages_keep_predictors_witness :
  let s1 := run_store (method WCSPH 0 1 (1#2)) example_group in
  let s' := run_store (drive WCSPH 1 example_events) s1 in
  driver_ok WCSPH example_events = true /\
  method WCSPH 0 1 (1#2) example_group = Some (tt, s1) /\
  drive WCSPH 1 example_events s1 = Some (tt, s') /\
  s' "u0" = s1 "u0" /\ read s' "u0" 1 = read example_group "u" 1.
Proof.
  intros s1 s'. split; [reflexivity|]. split; [reflexivity|].
  split; [reflexivity|].
  apply (stages_keep_predictors WCSPH 1 (1#2) example_events example_group s1 s');
    [reflexivity | reflexivity | reflexivity | cbn; tauto].
Defined.

(** ** C6 *)

(** C6 (as stated, refuted): "a call at index [i] writes only current,
    not predictor, properties, at index [i]".  WCSPHStep's [initialize]
    writes the predictor [x0]. *)
Lemma C6_initialize_writes_predictor :
  ~ (forall k st i dt,
       frame (fun n j => negb (existsb (String.eqb n) (preds k)) && Nat.eqb j i)
             (method k st i dt)).
Proof.
  intros H.
  pose proof (H WCSPH 0%nat 1%nat 0 example_group tt
                (run_store (method WCSPH 0 1 0) example_group) eq_refl "x0") as A.
  vm_compute in A. destruct A as [_ A]. specialize (A 1%nat eq_refl).
  vm_compute in A. discriminate A.
Qed.

(** C6 (corrected): every method call at index [i] reads no array element
    of another particle and writes no array element of another particle
    (it may read and write current and predictor properties of [i]); so
    calls at two distinct indices commute: both orders fail, or both give
    the same store. *)
Theorem method_calls_particle_local k st1 st2 dt1 dt2 i j :
  i <> j ->
  rel (off_index i) (off_index i) (method k st1 i dt1) /\
  frame (at_index i) (method k st1 i dt1) /\
  forall s, same_result ((method k st1 i dt1 ;; method k st2 j dt2) s)
                        ((method k st2 j dt2 ;; method k st1 i dt1) s).
Proof.
  intros Hij. destruct (method_local k st1 i dt1) as [R1 F1].
  destruct (method_local k st2 j dt2) as [R2 F2].
  split; [exact R1|]. split; [exact F1|].
  intros s. apply (local_calls_commute _ _ i j); assumption.
Qed.

Lemma method_calls_particle_local_witness :
  same_result
    ((method AdamiVerlet 2 0 (1#2) ;; method AdamiVerlet 2 1 (1#2)) example_group)
    ((method AdamiVerlet 2 1 (1#2) ;; method AdamiVerlet 2 0 (1#2)) example_group).
Proof.
  refine (proj2 (proj2 (method_calls_particle_local AdamiVerlet 2 2 (1#2) (1#2) 0 1 _))
            example_group).
  lia.
Defined.

(** ** C7 *)

(** C7: VerletSymplecticWCSPHStep's [stage1] sets [x += dt/2 * u]
    (likewise [y], [z]) and leaves the velocity arrays as they were;
    [stage2] sets [u += dt * au] and then [x += dt/2 * ax] with the XSPH
    velocity [(ax, ay, az)]; neither stage reads [rho] or [arho] (runs on
    stores that differ only there do the same thing), nor writes them. *)
Theorem VerletSymplecticWCSPH_drift_kick_drift i dt :
  (forall s s', VerletSymplecticWCSPHStep.stage1 i dt s = Some (tt, s') ->
     forall q r, In (q, r) [("x","u"); ("y","v"); ("z","w")] ->
       qeq_opt (read s' q i)
         (lift2 (fun q0 r0 => q0 + (1#2) * dt * r0) (read s q i) (read s r i)) /\
       s' r = s r) /\
  (forall s s', VerletSymplecticWCSPHStep.stage2 i dt s = Some (tt, s') ->
     forall q r a b, In (q, r, a, b) [("x","u","au","ax"); ("y","v","av","ay");
                                      ("z","w","aw","az")] ->
       qeq_opt (read s' r i)
         (lift2 (fun r0 a0 => r0 + dt * a0) (read s r i) (read s a i)) /\
       qeq_opt (read s' q i)
         (lift2 (fun q0 b0 => q0 + (1#2) * dt * b0) (read s q i) (read s b i))) /\
  (forall st, st = 1%nat \/ st = 2%nat ->
     rel density_at density_at (method VerletSymplecticWCSPH st i dt) /\
     frame (fun n j => negb (density_at n j)) (method VerletSymplecticWCSPH st i dt) /\
     forall s s', method VerletSymplecticWCSPH st i dt s = Some (tt, s') ->
       s' "rho" = s "rho" /\ s' "arho" = s "arho").
Proof.
  split; [|split].
  - intros s s' E. start_wp E. unfold_methods. wp_prog. simp_store.
    intros q r Hin. case_in Hin; simp_store; (split; [finish_q|reflexivity]).
  - intros s s' E. start_wp E. unfold_methods. wp_prog. simp_store.
    intros q r ac b Hin. case_in Hin; simp_store; split; finish_q.
  - intros st Hst.
    assert (F : frame (fun n j => negb (density_at n j))
                  (method VerletSymplecticWCSPH st i dt)).
    { unfold density_at. destruct Hst as [-> | ->]; unfold_methods; frame_prog. }
    split; [|split; [exact F|]].
    + unfold density_at. destruct Hst as [-> | ->]; unfold_methods; rel_keep.
    + intros s s' E. pose proof (F _ _ _ E) as A.
      split; symmetry; apply (agree_unmarked_eq _ _ _ _ A); reflexivity.
Qed.

Lemma VerletSymplecticWCSPH_drift_kick_drift_witness :
  let s' := run_store (VerletSymplecticWCSPHStep.stage2 1 (1#2)) example_group in
  VerletSymplecticWCSPHStep.stage2 1 (1#2) example_group = Some (tt, s') /\
  qeq_opt (read s' "x" 1)
    (lift2 (fun q0 b0 => q0 + (1#2) * (1#2) * b0) (read example_group "x" 1)
       (read example_group "ax" 1)).
Proof.
  intros s'. split; [reflexivity|].
  refine (proj2 (proj1 (proj2 (VerletSymplecticWCSPH_drift_kick_drift 1 (1#2)))
                   example_group s' eq_refl "x" "u" "au" "ax" _)).
  cbn. tauto.
Defined.

(** ** C8 *)

(** C8: [EulerStep.initialize] changes nothing; [EulerStep.stage1] sets
    [u' = u + dt*au] (likewise [v], [w]), then [x' = x + dt*u'] with the
    updated velocity (likewise [y], [z]), and [rho' = rho + dt*arho]. *)
Theorem EulerStep_forward_euler :
  (forall i s, EulerStep.initialize i s = Some (tt, s)) /\
  (forall i dt s s', EulerStep.stage1 i dt s = Some (tt, s') ->
     (forall q r a, In (q, r, a) [("x","u","au"); ("y","v","av"); ("z","w","aw")] ->
        qeq_opt (read s' r i)
          (lift2 (fun r0 a0 => r0 + dt * a0) (read s r i) (read s a i)) /\
        qeq_opt (read s' q i)
          (lift3 (fun q0 r0 a0 => q0 + dt * (r0 + dt * a0))
             (read s q i) (read s r i) (read s a i))) /\
     qeq_opt (read s' "rho" i)
       (lift2 (fun r0 a0 => r0 + dt * a0) (read s "rho" i) (read s "arho" i))).
Proof.
  split; [reflexivity|].
  intros i dt s s' E. start_wp E. unfold_methods. wp_prog. simp_store.
  split; [|finish_q].
  intros q r ac Hin. case_in Hin; simp_store; split; finish_q.
Qed.

Lemma EulerStep_forward_euler_witness :
  let s' := run_store (EulerStep.stage1 1 (1#2)) example_group in
  EulerStep.stage1 1 (1#2) example_group = Some (tt, s') /\
  qeq_opt (read s' "x" 1)
    (lift3 (fun q0 r0 a0 => q0 + (1#2) * (r0 + (1#2) * a0))
       (read example_group "x" 1) (read example_group "u" 1)
       (read example_group "au" 1)).
Proof.
  intros s'. split; [reflexivity|].
  refine (proj2 (proj1 (proj2 EulerStep_forward_euler 1%nat (1#2) example_group s'
                          eq_refl) "x" "u" "au" _)).
  cbn. auto.
Defined.

(** ** C9 *)

(** C9 (Modelled from the spec: [dump] and [load] follow the persistence
    format of the specification): for every particle array, after
    [set_output_arrays pa ['x', 'y', 'u']], dumping the group and loading
    the dump yields a group of the same name whose
    [output_property_arrays] is exactly [['x', 'y', 'u']], as is the
    original's. *)
Theorem output_arrays_round_trip (pa : SolverUtils.particle_array) solver_data :
  let output_arrays := ["x"; "y"; "u"] in
  let pa' := SolverUtils.set_output_arrays pa output_arrays in
  SolverUtils.output_property_arrays pa' = output_arrays /\
  exists data pa1,
    SolverUtils.load (SolverUtils.dump [pa'] solver_data) = Some data /\
    SolverUtils.lookup_array (SolverUtils.pa_name pa)
      (SolverUtils.loaded_arrays data) = Some pa1 /\
    SolverUtils.output_property_arrays pa1 = output_arrays.
Proof.
  cbn zeta. split; [reflexivity|].
  eexists; eexists. split; [reflexivity|].
  unfold SolverUtils.lookup_array; cbn. rewrite String.eqb_refl.
  split; reflexivity.
Qed.

(** ** C10 *)

(** C10: TransportVelocityStep's [stage1] overwrites the advection
    velocity: [uhat = u' + dt/2 * auhat] with the half-stepped
    [u' = u + dt/2 * au] (likewise [vhat]); the old [uhat], [vhat] of the
    particle are never read (stores differing only there give the same
    result); with [dt = 0] it sets [(uhat, vhat)] to [(u, v)] and leaves
    [x], [y], [u], [v] and [rho] unchanged. *)
Theorem TransportVelocity_stage1_advection_velocity i dt :
  (forall s s', TransportVelocityStep.stage1 i dt s = Some (tt, s') ->
     forall q r a ah, In (q, r, a, ah) [("uhat","u","au","auhat");
                                        ("vhat","v","av","avhat")] ->
       qeq_opt (read s' q i)
         (lift3 (fun r0 a0 ah0 => (r0 + (1#2) * dt * a0) + (1#2) * dt * ah0)
            (read s r i) (read s a i) (read s ah i))) /\
  (forall s1 s2, agree (hat_at i) s1 s2 ->
     same_result (TransportVelocityStep.stage1 i dt s1)
                 (TransportVelocityStep.stage1 i dt s2)) /\
  (forall s s', TransportVelocityStep.stage1 i 0 s = Some (tt, s') ->
     qeq_opt (read s' "uhat" i) (read s "u" i) /\
     qeq_opt (read s' "vhat" i) (read s "v" i) /\
     forall n, In n ["x"; "y"; "u"; "v"; "rho"] -> qeq_opt (read s' n i) (read s n i)).
Proof.
  split; [|split].
  - intros s s' E. start_wp E. unfold_methods. wp_prog. simp_store.
    intros q r ac ah Hin. case_in Hin; simp_store; finish_q.
  - intros s1 s2 H. apply (rel_same_result (hat_at i)); [|exact H].
    unfold hat_at, TransportVelocityStep.stage1, incr.
    eapply rel_weaken; [rel_evolve|].
    intros n j Hj. unfold clear in Hj.
    destruct (String.eqb_spec n "uhat"), (String.eqb_spec n "vhat"),
      (Nat.eqb_spec j i); subst; cbn in Hj;
      rewrite ?Nat.eqb_refl, ?andb_false_r, ?andb_true_r in Hj; try discriminate.
  - intros s s' E. start_wp E. unfold_methods. wp_prog. simp_store.
    split; [finish_q|split; [finish_q|]].
    intros n Hin. case_in Hin; simp_store; finish_q.
Qed.

Lemma TransportVelocity_stage1_advection_velocity_witness :
  let s' := run_store (TransportVelocityStep.stage1 1 0) example_group in
  TransportVelocityStep.stage1 1 0 example_group = Some (tt, s') /\
  qeq_opt (read s' "uhat" 1) (read example_group "u" 1).
Proof.
  intros s'. split; [reflexivity|].
  exact (proj1 (proj2 (proj2 (TransportVelocity_stage1_advection_velocity 1 0))
                  example_group s' eq_refl)).
Defined.

(** * Further properties of the integrator steps *)

(** ** Frame and error behaviour of every method *)

(** Every method call at index [i] changes only element [i] of the arrays
    its body assigns ([writes k st]); it adds, removes or resizes no
    array. *)
Theorem method_assigns_only_listed k st i dt :
  frame (writes_at k st i) (method k st i dt).
Proof. exact (method_writes k st i dt). Qed.

(** No method of any scheme changes a rate array ([au] ... [arho], [ae],
    [as00] ... [as22], [auhat], [avhat]). *)
Theorem method_keeps_rates k st i dt s s' :
  method k st i dt s = Some (tt, s') ->
  forall n, In n rate_arrays -> s' n = s n.
Proof.
  intros E n Hn. symmetry.
  apply (agree_unmarked_eq (writes_at k st i)); [exact (method_writes k st i dt _ _ _ E)|].
  intros j. unfold writes_at.
  case_in Hn; destruct k, st as [|[|[|[|st]]]]; reflexivity.
Qed.

Lemma method_keeps_rates_witness :
  let s' := run_store (method AdamiVerlet 2 1 (1#2)) example_group in
  method AdamiVerlet 2 1 (1#2) example_group = Some (tt, s') /\
  s' "au" = example_group "au".
Proof.
  intros s'. split; [reflexivity|].
  apply (method_keeps_rates AdamiVerlet 2 1 (1#2) example_group s'); [reflexivity|].
  cbn. tauto.
Defined.

(** A call at an index past the end of every array fails (an index
    error), unless the method is a [pass], which succeeds and changes
    nothing. *)
Theorem method_out_of_range k st i dt s :
  (forall n a, s n = Some a -> (length a <= i)%nat) ->
  method k st i dt s = if is_pass k st then Some (tt, s) else None.
Proof.
  intros H.
  destruct k, st as [|[|[|[|st]]]]; unfold_methods; cbn [is_pass];
    try reflexivity; cbv beta zeta;
    repeat apply bind_none; apply rd_out_of_range; exact H.
Qed.

Lemma method_out_of_range_witness :
  method WCSPH 1 2 (1#2) example_group = None.
Proof.
  refine (method_out_of_range WCSPH 1 2 (1#2) example_group _).
  intros n a H. rewrite (example_group_lengths n a H). lia.
Defined.

(** A call that succeeds found every array it assigns, with an element at
    index [d_idx]. *)
Theorem method_needs_arrays k st i dt s s' :
  method k st i dt s = Some (tt, s') ->
  forall n, In n (writes k st) -> exists a, s n = Some a /\ (i < length a)%nat.
Proof.
  intros E n Hn.
  pose proof (method_writes_present k st i dt s s' E n Hn) as P.
  pose proof (method_writes k st i dt _ _ _ E n) as A.
  unfold read in P.
  destruct (s n) as [a|], (s' n) as [a'|]; try contradiction.
  exists a. split; [reflexivity|]. destruct A as [L _]. rewrite L.
  apply nth_error_Some. exact P.
Qed.

Lemma method_needs_arrays_witness :
  let s' := run_store (method GasDFluid 0 1 (1#2)) example_group in
  method GasDFluid 0 1 (1#2) example_group = Some (tt, s') /\
  exists a, example_group "omega" = Some a /\ (1 < length a)%nat.
Proof.
  intros s'. split; [reflexivity|].
  apply (method_needs_arrays GasDFluid 0 1 (1#2) example_group s'); [reflexivity|].
  cbn. tauto.
Defined.

(** ** Composition of methods *)

(** A method that computes what it assigns from predictors and rates only
    (every [initialize], stage1 and stage2 of WCSPHStep, SolidMechStep,
    GasDFluidStep and TwoStageRigidBodyStep, stage1 of WCSPHTVDRK3Step,
    and the [pass] methods) does not depend on the old values of what it
    assigns, so calling it twice is the same as calling it once. *)
Theorem recomputing_method_idempotent k st i dt :
  recomputes k st = true ->
  (forall s1 s2, agree (writes_at k st i) s1 s2 ->
     same_result (method k st i dt s1) (method k st i dt s2)) /\
  (forall s, same_result ((method k st i dt ;; method k st i dt) s)
                         (method k st i dt s)).
Proof.
  intros Hr. pose proof (method_overwrites k st i dt Hr) as R.
  split.
  - intros s1 s2 H. exact (rel_same_result _ _ _ _ R H).
  - intros s. unfold bind at 1.
    destruct (method k st i dt s) as [[[] s1]|] eqn:E; [|exact I].
    rewrite <- E.
    exact (rel_frame_same_result _ _ _ s s1 R (method_writes k st i dt) E).
Qed.

Lemma recomputing_method_idempotent_witness :
  same_result ((method GasDFluid 1 1 (1#2) ;; method GasDFluid 1 1 (1#2)) example_group)
              (method GasDFluid 1 1 (1#2) example_group).
Proof.
  exact (proj2 (recomputing_method_idempotent GasDFluid 1 1 (1#2) eq_refl) example_group).
Defined.

(** In WCSPHStep, SolidMechStep, GasDFluidStep and TwoStageRigidBodyStep,
    stage2 computes the same result whether or not stage1 ran before it
    (with any step sizes): stage1 affects stage2 only through the rates
    evaluated in between. *)
Theorem stage2_ignores_stage1 k i dt1 dt2 s s1 :
  In k [WCSPH; SolidMech; GasDFluid; TwoStageRigidBody] ->
  method k 1 i dt1 s = Some (tt, s1) ->
  same_result (method k 2 i dt2 s1) (method k 2 i dt2 s).
Proof.
  intros Hk E.
  assert (Hw : writes k 1 = writes k 2) by (case_in Hk; reflexivity).
  assert (Hr : recomputes k 2 = true) by (case_in Hk; reflexivity).
  apply (rel_frame_same_result (writes_at k 1 i) (method k 1 i dt1));
    [|apply method_writes|exact E].
  unfold writes_at at 1. rewrite Hw. apply method_overwrites. exact Hr.
Qed.

Lemma stage2_ignores_stage1_witness :
  let s1 := run_store (method TwoStageRigidBody 1 1 (1#2)) example_group in
  method TwoStageRigidBody 1 1 (1#2) example_group = Some (tt, s1) /\
  same_result (method TwoStageRigidBody 2 1 (1#4) s1)
              (method TwoStageRigidBody 2 1 (1#4) example_group).
Proof.
  intros s1. split; [reflexivity|].
  apply (stage2_ignores_stage1 TwoStageRigidBody 1 (1#2) (1#4) example_group s1);
    [cbn; tauto | reflexivity].
Defined.

(** In WCSPHStep, SolidMechStep, GasDFluidStep and TwoStageRigidBodyStep,
    stage1 with step [dt] is stage2 with step [dt/2]. *)
Theorem stage1_is_half_stage2 k i dt :
  In k [WCSPH; SolidMech; GasDFluid; TwoStageRigidBody] ->
  method k 1 i dt = method k 2 i ((1#2) * dt).
Proof. intros Hk. case_in Hk; reflexivity. Qed.

Lemma stage1_is_half_stage2_witness :
  method GasDFluid 1 1 (1#2) = method GasDFluid 2 1 ((1#2) * (1#2)).
Proof. apply stage1_is_half_stage2. cbn. tauto. Defined.

(** ** What a stage sequence computes *)

(** After stage2 of TransportVelocityStep or AdamiVerletStep, [vmag2] is
    [u*u + v*v] of the velocity just computed, hence non-negative. *)
Theorem vmag2_matches_velocity k i dt s s' :
  k = TransportVelocity \/ k = AdamiVerlet ->
  method k 2 i dt s = Some (tt, s') ->
  read s' "vmag2" i = lift2 (fun u v => u * u + v * v) (read s' "u" i) (read s' "v" i) /\
  exists m, read s' "vmag2" i = Some m /\ 0 <= m.
Proof.
  intros [-> | ->] E; start_wp E; unfold_methods; wp_prog; simp_store;
    (split; [reflexivity | eexists; split; [reflexivity | apply sum_squares_nonneg]]).
Qed.

Lemma vmag2_matches_velocity_witness :
  let s' := run_store (method AdamiVerlet 2 1 (1#2)) example_group in
  method AdamiVerlet 2 1 (1#2) example_group = Some (tt, s') /\
  exists m, read s' "vmag2" 1 = Some m /\ 0 <= m.
Proof.
  intros s'. split; [reflexivity|].
  exact (proj2 (vmag2_matches_velocity AdamiVerlet 1 (1#2) example_group s'
                  (or_intror eq_refl) eq_refl)).
Defined.

(** AdamiVerletStep's stage1 then stage2 with the same [dt] and unchanged
    rates, in exact rational arithmetic (in doubles the two half steps
    may round differently from these closed forms): [u + dt*au] for the velocity, [x + dt*u + (3/4)*dt^2*au] for
    the position (likewise [v], [y]), and [rho + dt*arho]. *)
Theorem AdamiVerlet_step i dt s s' :
  calls AdamiVerlet i [(1%nat, dt); (2%nat, dt)] s = Some (tt, s') ->
  (forall q r a, In (q, r, a) [("x","u","au"); ("y","v","av")] ->
     qeq_opt (read s' r i) (lift2 (fun r0 a0 => r0 + dt * a0) (read s r i) (read s a i)) /\
     qeq_opt (read s' q i)
       (lift3 (fun q0 r0 a0 => q0 + dt * r0 + (3#4) * dt ^ 2 * a0)
          (read s q i) (read s r i) (read s a i))) /\
  qeq_opt (read s' "rho" i)
    (lift2 (fun r0 a0 => r0 + dt * a0) (read s "rho" i) (read s "arho" i)).
Proof.
  intros E. start_wp E. unfold_methods. wp_prog. simp_store.
  split; [|finish_q].
  intros q r ac Hin. case_in Hin; simp_store; split; finish_q.
Qed.

Lemma AdamiVerlet_step_witness :
  let s' := run_store (calls AdamiVerlet 1 [(1%nat, 1#2); (2%nat, 1#2)]) example_group in
  calls AdamiVerlet 1 [(1%nat, 1#2); (2%nat, 1#2)] example_group = Some (tt, s') /\
  qeq_opt (read s' "rho" 1)
    (lift2 (fun r0 a0 => r0 + (1#2) * a0) (read example_group "rho" 1)
       (read example_group "arho" 1)).
Proof.
  intros s'. split; [reflexivity|].
  exact (proj2 (AdamiVerlet_step 1 (1#2) example_group s' eq_refl)).
Defined.

(** A TransportVelocityStep timestep with unchanged rates, in exact
    rational arithmetic (in doubles the two half-step velocity increments
    may round differently from [u + dt*au]): [u + dt*au];
    [uhat = u + (dt/2)*au + (dt/2)*auhat]; the position moves by [dt]
    times the new [uhat] (likewise [v], [vhat], [y]); [vmag2] is
    [u*u + v*v] of the new velocity. *)
Theorem TransportVelocity_step i dt s s' :
  calls TransportVelocity i [(0%nat, dt); (1%nat, dt); (2%nat, dt)] s = Some (tt, s') ->
  forall q r a h ah, In (q, r, a, h, ah) [("x","u","au","uhat","auhat");
                                          ("y","v","av","vhat","avhat")] ->
  qeq_opt (read s' r i) (lift2 (fun r0 a0 => r0 + dt * a0) (read s r i) (read s a i)) /\
  qeq_opt (read s' h i)
    (lift3 (fun r0 a0 ah0 => r0 + (1#2) * dt * a0 + (1#2) * dt * ah0)
       (read s r i) (read s a i) (read s ah i)) /\
  qeq_opt (read s' q i) (lift2 (fun q0 h1 => q0 + dt * h1) (read s q i) (read s' h i)) /\
  qeq_opt (read s' "vmag2" i)
    (lift2 (fun u v => u * u + v * v) (read s' "u" i) (read s' "v" i)).
Proof.
  intros E. start_wp E. unfold_methods. wp_prog. simp_store.
  intros q r ac h ah Hin. case_in Hin; simp_store;
    (split; [finish_q|split; [finish_q|split; finish_q]]).
Qed.

Lemma TransportVelocity_step_witness :
  let cs := [(0%nat, 1#2); (1%nat, 1#2); (2%nat, 1#2)] in
  let s' := run_store (calls TransportVelocity 1 cs) example_group in
  calls TransportVelocity 1 cs example_group = Some (tt, s') /\
  qeq_opt (read s' "u" 1)
    (lift2 (fun r0 a0 => r0 + (1#2) * a0) (read example_group "u" 1)
       (read example_group "au" 1)).
Proof.
  intros cs s'. split; [reflexivity|].
  refine (proj1 (TransportVelocity_step 1 (1#2) example_group s' eq_refl
                   "x" "u" "au" "uhat" "auhat" _)).
  cbn. tauto.
Defined.

(** A GasDFluidStep timestep with unchanged rates: [u + dt*au] and
    [x + dt*(u + dt*au)], the position moving with the new velocity
    (likewise [v, y] and [w, z]); [e + dt*ae]; [converged] is 0 and
    [omega] is 1; [h] is unchanged and [h0] holds it. *)
Theorem GasDFluid_step i dt s s' :
  timestep GasDFluid i dt s = Some (tt, s') ->
  (forall q r a, In (q, r, a) [("x","u","au"); ("y","v","av"); ("z","w","aw")] ->
     qeq_opt (read s' r i) (lift2 (fun r0 a0 => r0 + dt * a0) (read s r i) (read s a i)) /\
     qeq_opt (read s' q i)
       (lift3 (fun q0 r0 a0 => q0 + dt * (r0 + dt * a0))
          (read s q i) (read s r i) (read s a i))) /\
  qeq_opt (read s' "e" i) (lift2 (fun e0 a0 => e0 + dt * a0) (read s "e" i) (read s "ae" i)) /\
  read s' "converged" i = Some 0 /\ read s' "omega" i = Some 1 /\
  read s' "h" i = read s "h" i /\ read s' "h0" i = read s "h" i.
Proof.
  intros E. start_wp E. unfold_methods. wp_prog. simp_store.
  split; [|split; [finish_q|repeat split; reflexivity]].
  intros q r ac Hin. case_in Hin; simp_store; split; finish_q.
Qed.

Lemma GasDFluid_step_witness :
  let s' := run_store (timestep GasDFluid 1 (1#2)) example_group in
  timestep GasDFluid 1 (1#2) example_group = Some (tt, s') /\
  read s' "h0" 1 = read example_group "h" 1.
Proof.
  intros s'. split; [reflexivity|].
  exact (proj2 (proj2 (proj2 (proj2 (proj2
           (GasDFluid_step 1 (1#2) example_group s' eq_refl)))))).
Defined.

(** WCSPHTVDRK3Step with unchanged rates, in exact rational arithmetic:
    after [initialize], stage1 and stage2 every integrated quantity is
    [q + (dt/2)*a_q], one Euler step of half the size (in doubles the
    [0.75/0.25] blend may round differently, as in [Double]). *)
Theorem WCSPHTVDRK3_two_stages_half_step i dt s s' :
  calls WCSPHTVDRK3 i [(0%nat, dt); (1%nat, dt); (2%nat, dt)] s = Some (tt, s') ->
  forall q a, In (q, a) tvd_pairs ->
  qeq_opt (read s' q i) (lift2 (fun q0 a0 => q0 + (1#2) * dt * a0) (read s q i) (read s a i)).
Proof.
  intros E. start_wp E. unfold_methods. wp_prog. simp_store.
  intros q ac Hin. case_in Hin; simp_store; finish_q.
Qed.

Lemma WCSPHTVDRK3_two_stages_half_step_witness :
  let cs := [(0%nat, 1#2); (1%nat, 1#2); (2%nat, 1#2)] in
  let s' := run_store (calls WCSPHTVDRK3 1 cs) example_group in
  calls WCSPHTVDRK3 1 cs example_group = Some (tt, s') /\
  qeq_opt (read s' "rho" 1)
    (lift2 (fun q0 a0 => q0 + (1#2) * (1#2) * a0) (read example_group "rho" 1)
       (read example_group "arho" 1)).
Proof.
  intros cs s'. split; [reflexivity|].
  apply (WCSPHTVDRK3_two_stages_half_step 1 (1#2) example_group s'); [reflexivity|].
  cbn. tauto.
Defined.

(** TwoStageRigidBodyStep, in exact rational arithmetic: after
    [initialize] and stage1 the body is at the constant-acceleration
    state at time [dt/2] (in doubles only up to rounding):
    [u + a*(dt/2)] and [x + u*(dt/2) + a*(dt/2)^2/2]. *)
Theorem TwoStageRigidBody_half_step i dt s s' :
  calls TwoStageRigidBody i [(0%nat, dt); (1%nat, dt)] s = Some (tt, s') ->
  forall q r a, In (q, r, a) [("x","u","ax"); ("y","v","ay"); ("z","w","az")] ->
  qeq_opt (read s' r i) (lift2 (fun u0 a0 => u0 + a0 * ((1#2) * dt)) (read s r i) (read s a i)) /\
  qeq_opt (read s' q i)
    (lift3 (fun x0 u0 a0 => x0 + u0 * ((1#2) * dt) + (1#2) * a0 * ((1#2) * dt) ^ 2)
       (read s q i) (read s r i) (read s a i)).
Proof.
  intros E. start_wp E. unfold_methods. wp_prog. simp_store.
  intros q r ac Hin. case_in Hin; simp_store; split; finish_q.
Qed.

Lemma TwoStageRigidBody_half_step_witness :
  let cs := [(0%nat, 1#2); (1%nat, 1#2)] in
  let s' := run_store (calls TwoStageRigidBody 1 cs) example_group in
  calls TwoStageRigidBody 1 cs example_group = Some (tt, s') /\
  qeq_opt (read s' "z" 1)
    (lift3 (fun x0 u0 a0 => x0 + u0 * ((1#2) * (1#2)) + (1#2) * a0 * ((1#2) * (1#2)) ^ 2)
       (read example_group "z" 1) (read example_group "w" 1) (read example_group "az" 1)).
Proof.
  intros cs s'. split; [reflexivity|].
  refine (proj2 (TwoStageRigidBody_half_step 1 (1#2) example_group s' eq_refl
                   "z" "w" "az" _)).
  cbn. tauto.
Defined.
